(** * Cropify: image transform pipeline and batch orchestrator

    Shallow embedding of [src/src/hooks/useBatchProcessor.ts],
    [src/src/utils/imageProcessor.ts] and the size helper of the batch
    resize view ([src/unnamed/part_002]).

    JS numbers that hold pixel counts are modelled as [Z]; other JS
    numbers (scale factors, rotation angles, border radius fractions,
    canvas coordinates) as exact rationals [Q], except in
    [calculateRotatedSize], whose result depends on the rounding of each
    double-precision operation: there every operation rounds to a double. *)

From Stdlib Require Import List String ZArith QArith Qround Qminmax Qfield Qabs Lqa Bool Lia.
Import ListNotations.

Local Open Scope Z_scope.

(* ------------------------------------------------------------------ *)
(** ** Data model (types of [@/types]) *)

(** A colour value; [None] in a pixel slot is a transparent pixel. *)
Definition Color := Z.

(** A decoded raster: an [HTMLImageElement] or a canvas bitmap. *)
Record Surface := mkSurface {
  s_width : Z;
  s_height : Z;
  s_px : Z -> Z -> option Color
}.

Inductive ProcessStatus := PENDING | PROCESSING | COMPLETED | FAILED | CANCELLED.

Definition status_eqb (a b : ProcessStatus) : bool :=
  match a, b with
  | PENDING, PENDING | PROCESSING, PROCESSING | COMPLETED, COMPLETED
  | FAILED, FAILED | CANCELLED, CANCELLED => true
  | _, _ => false
  end.

Inductive ProcessType := PTCrop | PTResize.

Definition ptype_eqb (a b : ProcessType) : bool :=
  match a, b with
  | PTCrop, PTCrop | PTResize, PTResize => true
  | _, _ => false
  end.

(** [CropParams]: the optional fields keep their [undefined] case. *)
Record CropParams := mkCropParams {
  cp_width : Z;
  cp_height : Z;
  cp_x : Z;
  cp_y : Z;
  cp_rotation : option Q;
  cp_flipHorizontal : option bool;
  cp_flipVertical : option bool;
  cp_borderRadius : option Q
}.

Record ResizeTarget := mkResizeTarget {
  rt_enabled : bool;
  rt_width : Z;
  rt_height : Z
}.

Inductive ResizeMode := ScaleDown.

Record ProportionalResizeSettings := mkPRS {
  prs_scaleFactor : Q;
  prs_mode : ResizeMode
}.

Inductive OutputFormat := Jpg | Png | Webp.

Record OutputSettings := mkOutputSettings {
  os_format : OutputFormat;
  os_quality : Z;
  os_maintainOriginalName : bool;
  os_filenamePrefix : string;
  os_filenameSuffix : string
}.

(** [ImageFile]; ids are modelled as naturals (the values of [generateId]). *)
Record ImageFile := mkImage {
  img_id : nat;
  img_name : string;
  img_width : Z;
  img_height : Z;
  img_cropParams : option CropParams;
  img_resizeTarget : option ResizeTarget;
  img_batchResizeScaleFactor : option Q
}.

(** Blobs produced by the engines (before and after format conversion). *)
Inductive Blob :=
| BlobSurface (s : Surface)
| BlobResampled (src : Surface) (w h : Z)
| BlobConverted (b : Blob) (fmt : OutputFormat).

Record ProcessTask := mkTask {
  t_id : nat;
  t_imageId : nat;
  t_processType : ProcessType;
  t_status : ProcessStatus;
  t_progress : Z;
  t_cropParams : option CropParams;
  t_resizeSettings : option ProportionalResizeSettings;
  t_outputSettings : OutputSettings;
  t_error : option string;
  t_processedBlob : option Blob
}.

(** [AppError] (the [timestamp] field, [Date.now()], is left out). *)
Record AppError := mkAppError {
  e_id : nat;
  e_type : string;
  e_message : string;
  e_details : string
}.

(** Outcome of an awaited promise: resolved, or rejected with an
    [Error] whose [message] is given. *)
Inductive res (A : Type) := ROk (a : A) | RErr (msg : string).
Arguments ROk {A} a.
Arguments RErr {A} msg.

(* ------------------------------------------------------------------ *)
(** ** Proportional resize *)

(** [Math.round] on a finite number. *)
Definition js_round (q : Q) : Z := Qfloor (q + (1 # 2)).

(** Truthiness of a JS number ([0] is falsy). *)
Definition js_truthy_num (q : Q) : bool := negb (Qeq_bool q 0).

(** [calculateNewSize] of [BatchResizeView] (part_002, lines 27-33);
    [defaultFactor] is the view's [resizeSettings.scaleFactor]. *)
Definition calculateNewSize (defaultFactor : Q) (width height : Z)
    (imageScaleFactor : option Q) : Z * Z :=
  let factor :=
    match imageScaleFactor with
    | Some f => if js_truthy_num f then f else defaultFactor
    | None => defaultFactor
    end in
  (js_round (inject_Z width / factor), js_round (inject_Z height / factor)).

Inductive ResizeError := InvalidScaleFactor.

Definition resize_error_message (e : ResizeError) : string :=
  match e with InvalidScaleFactor => "InvalidScaleFactor"%string end.

(** Modelled from the spec: [ImageProcessor.resizeImageProportionally],
    called by [processImage] but not defined in the repository's
    [imageProcessor.ts]. Spec 4.1: [newWidth = round(width / scaleFactor)],
    [newHeight = round(height / scaleFactor)], both floored at 1; fails with
    [InvalidScaleFactor] if [scaleFactor <= 0]. This gives the output size. *)
Definition resize_dims (width height : Z) (scaleFactor : Q)
    : ResizeError + (Z * Z) :=
  if Qle_bool scaleFactor 0 then inl InvalidScaleFactor
  else inr (Z.max 1 (js_round (inject_Z width / scaleFactor)),
            Z.max 1 (js_round (inject_Z height / scaleFactor))).

(** Modelled from the spec: the resampling itself (a high-quality filter
    onto a [newWidth x newHeight] surface) is kept symbolic. *)
Definition resizeImageProportionally (src : Surface) (scaleFactor : Q)
    : ResizeError + Blob :=
  match resize_dims (s_width src) (s_height src) scaleFactor with
  | inl e => inl e
  | inr (w, h) => inr (BlobResampled src w h)
  end.

(* ------------------------------------------------------------------ *)
(** ** The [useBatchProcessor] hook *)

(** Hook state: the React state ([tasks], [isProcessing]), the refs
    ([processingRef], [abortControllerRef]), the abort flags of every
    [AbortController] created so far (by number), the [generateId]
    counter, and the errors handed to [onError]. React state updates are
    taken as visible to the next call (the hook's callbacks are recreated
    on every render). *)
Record Hook := mkHook {
  tasks : list ProcessTask;
  isProcessing : bool;
  processingRef : bool;
  abortControllerRef : option nat;
  aborted : list nat;
  next_ctrl : nat;
  next_id : nat;
  errors : list AppError
}.

Definition set_tasks (h : Hook) (ts : list ProcessTask) : Hook :=
  mkHook ts (isProcessing h) (processingRef h) (abortControllerRef h)
    (aborted h) (next_ctrl h) (next_id h) (errors h).

Definition add_error (h : Hook) (e : AppError) : Hook :=
  mkHook (tasks h) (isProcessing h) (processingRef h) (abortControllerRef h)
    (aborted h) (next_ctrl h) (next_id h) (errors h ++ [e]).

(** [generateId()]: a fresh id. *)
Definition generateId (h : Hook) : nat * Hook :=
  (next_id h,
   mkHook (tasks h) (isProcessing h) (processingRef h) (abortControllerRef h)
     (aborted h) (next_ctrl h) (S (next_id h)) (errors h)).

Definition is_aborted (h : Hook) (c : nat) : bool :=
  existsb (Nat.eqb c) (aborted h).

(** [abortControllerRef.current?.signal.aborted] as a truth value. *)
Definition ref_aborted (h : Hook) : bool :=
  match abortControllerRef h with
  | Some c => is_aborted h c
  | None => false
  end.

(** The [Partial<ProcessTask>] objects passed to [updateTask]. *)
Inductive TaskUpdate :=
| SetCancelled
| SetProcessing
| SetProgress (p : Z)
| SetFailed (msg : string)
| SetCompleted (b : Blob).

Definition apply_update (u : TaskUpdate) (t : ProcessTask) : ProcessTask :=
  match u with
  | SetCancelled =>
      mkTask (t_id t) (t_imageId t) (t_processType t) CANCELLED (t_progress t)
        (t_cropParams t) (t_resizeSettings t) (t_outputSettings t)
        (t_error t) (t_processedBlob t)
  | SetProcessing =>
      mkTask (t_id t) (t_imageId t) (t_processType t) PROCESSING 0
        (t_cropParams t) (t_resizeSettings t) (t_outputSettings t)
        (t_error t) (t_processedBlob t)
  | SetProgress p =>
      mkTask (t_id t) (t_imageId t) (t_processType t) (t_status t) p
        (t_cropParams t) (t_resizeSettings t) (t_outputSettings t)
        (t_error t) (t_processedBlob t)
  | SetFailed msg =>
      mkTask (t_id t) (t_imageId t) (t_processType t) FAILED 0
        (t_cropParams t) (t_resizeSettings t) (t_outputSettings t)
        (Some msg) (t_processedBlob t)
  | SetCompleted b =>
      mkTask (t_id t) (t_imageId t) (t_processType t) COMPLETED 100
        (t_cropParams t) (t_resizeSettings t) (t_outputSettings t)
        (t_error t) (Some b)
  end.

(** [updateTask(taskId, updates)]: [prev.map(task => task.id === taskId ? {...task, ...updates} : task)]. *)
Definition updateTask (tid : nat) (u : TaskUpdate) (h : Hook) : Hook :=
  set_tasks h (map (fun t => if Nat.eqb (t_id t) tid then apply_update u t else t)
                   (tasks h)).

(** [ERROR_MESSAGES.PROCESSING_FAILED] (its text lives in [@/constants]). *)
Definition PROCESSING_FAILED : string := "PROCESSING_FAILED".
Definition BATCH_ERROR : string := "batch error".

(** The [catch] block of [processImage]: mark the task failed, then
    [addError] one processing error (its [details] carry [image.name]). *)
Definition fail_task (h : Hook) (t : ProcessTask) (img : ImageFile) (msg : string)
    : Hook :=
  let h1 := updateTask (t_id t) (SetFailed msg) h in
  let (eid, h2) := generateId h1 in
  add_error h2 (mkAppError eid "processing" PROCESSING_FAILED (img_name img)).

(** The [finally] block of [executeBatch]. *)
Definition finish (h : Hook) : Hook :=
  mkHook (tasks h) false false None (aborted h) (next_ctrl h) (next_id h) (errors h).

(** The [catch] block of [executeBatch]. *)
Definition batch_error (h : Hook) (details : string) : Hook :=
  let (eid, h1) := generateId h in
  add_error h1 (mkAppError eid "processing" BATCH_ERROR details).

(** Where a run of [executeBatch] is suspended. [sig] is the number of the
    [AbortController] whose signal was passed to [processImage]; [rest] is
    what is left of [pendingTasks]. *)
Inductive Phase :=
| AwaitDecode (t : ProcessTask) (img : ImageFile) (sig : nat) (rest : list ProcessTask)
| AwaitEngine (t : ProcessTask) (img : ImageFile) (sig : nat) (src : Surface)
    (rest : list ProcessTask)
| AwaitEncode (t : ProcessTask) (img : ImageFile) (sig : nat) (b : Blob)
    (rest : list ProcessTask)
| AwaitYield (rest : list ProcessTask)
| Done.

(** One invocation of [executeBatch]: its [images] argument and where it is. *)
Record Run := mkRun {
  run_images : list ImageFile;
  run_phase : Phase
}.

Definition State : Type := (Hook * list Run)%type.

(** The collaborators of [processImage]: image loading, the crop engine
    ([ImageProcessor.cropImage]) and [convertBlobFormat]. *)
Record Env := mkEnv {
  decode : ImageFile -> res Surface;
  crop_engine : Surface -> CropParams -> ResizeTarget -> res Blob;
  encode : Blob -> OutputSettings -> res Blob
}.

Section Orchestrator.

Variable env : Env.

(** Entry of [processImage] (lines 47-55), reached synchronously from the
    loop of [executeBatch]. *)
Definition process_entry (h : Hook) (img : ImageFile) (t : ProcessTask) (c : nat)
    (rest : list ProcessTask) : Hook * Phase :=
  if is_aborted h c then (updateTask (t_id t) SetCancelled h, AwaitYield rest)
  else (updateTask (t_id t) SetProcessing h, AwaitDecode t img c rest).

(** The head of the [for (const task of pendingTasks)] loop (lines 188-196),
    run until the next [await] or the end of the loop. *)
Fixpoint loop_head (images : list ImageFile) (h : Hook) (rest : list ProcessTask)
    : Hook * Phase :=
  match rest with
  | [] => (finish h, Done)
  | t :: rest' =>
      if negb (processingRef h) || ref_aborted h then (finish h, Done)
      else
        match find (fun i => Nat.eqb (img_id i) (t_imageId t)) images with
        | None => loop_head images h rest'
        | Some img =>
            match abortControllerRef h with
            | None => (finish (batch_error h "abortControllerRef.current is null"), Done)
            | Some c => process_entry h img t c rest'
            end
        end
  end.

Definition default_resize_target : ResizeTarget := mkResizeTarget false 1024 1024.
Definition default_crop_params : CropParams :=
  mkCropParams 100 100 0 0 None None None None.

(** The engine step of [processImage] (lines 87-97). *)
Definition engine_run (t : ProcessTask) (img : ImageFile) (src : Surface) : res Blob :=
  match t_processType t, t_resizeSettings t with
  | PTResize, Some rs =>
      match resizeImageProportionally src (prs_scaleFactor rs) with
      | inl e => RErr (resize_error_message e)
      | inr b => ROk b
      end
  | _, _ =>
      let resizeSettings :=
        match img_resizeTarget img with Some r => r | None => default_resize_target end in
      let effectiveCropParams :=
        match t_cropParams t with Some p => p | None => default_crop_params end in
      crop_engine env src effectiveCropParams resizeSettings
  end.

(** Resumption of a run when the promise it awaits settles. *)
Definition resolve (images : list ImageFile) (h : Hook) (ph : Phase) : Hook * Phase :=
  match ph with
  | AwaitDecode t img c rest =>
      match decode env img with
      | RErr msg => (fail_task h t img msg, AwaitYield rest)
      | ROk src =>
          if is_aborted h c then (updateTask (t_id t) SetCancelled h, AwaitYield rest)
          else
            let h1 := updateTask (t_id t) (SetProgress 25) h in
            let h2 := updateTask (t_id t) (SetProgress 50) h1 in
            if is_aborted h2 c then (updateTask (t_id t) SetCancelled h2, AwaitYield rest)
            else (h2, AwaitEngine t img c src rest)
      end
  | AwaitEngine t img c src rest =>
      match engine_run t img src with
      | RErr msg => (fail_task h t img msg, AwaitYield rest)
      | ROk b =>
          let h1 := updateTask (t_id t) (SetProgress 75) h in
          if is_aborted h1 c then (updateTask (t_id t) SetCancelled h1, AwaitYield rest)
          else (h1, AwaitEncode t img c b rest)
      end
  | AwaitEncode t img c b rest =>
      match encode env b (t_outputSettings t) with
      | RErr msg => (fail_task h t img msg, AwaitYield rest)
      | ROk fin => (updateTask (t_id t) (SetCompleted fin) h, AwaitYield rest)
      end
  | AwaitYield rest => loop_head images h rest
  | Done => (h, Done)
  end.

(** [executeBatch(newTasks, images)] up to its first [await]. *)
Definition executeBatch (st : State) (newTasks : list ProcessTask)
    (images : list ImageFile) : State :=
  let (h, runs) := st in
  if isProcessing h then (h, runs)
  else
    let c := next_ctrl h in
    let h1 := mkHook newTasks true true (Some c) (aborted h) (S c) (next_id h) (errors h) in
    let pendingTasks :=
      filter (fun t => status_eqb (t_status t) PENDING || status_eqb (t_status t) FAILED)
        newTasks in
    let (h2, ph) := loop_head images h1 pendingTasks in
    (h2, runs ++ [mkRun images ph]).

End Orchestrator.

(** The task object literal built by [startBatch] (lines 228-236). *)
Definition pending_crop_task (tid : nat) (image : ImageFile) (cropParams : CropParams)
    (outputSettings : OutputSettings) : ProcessTask :=
  mkTask tid (img_id image) PTCrop PENDING 0
    (Some (match img_cropParams image with Some p => p | None => cropParams end))
    None outputSettings None None.

(** [tasks.find(t => t.imageId === image.id && t.processType === 'crop')]. *)
Definition find_crop_task (old : list ProcessTask) (image : ImageFile) : option ProcessTask :=
  find (fun t => Nat.eqb (t_imageId t) (img_id image) && ptype_eqb (t_processType t) PTCrop)
    old.

(** The [images.map(...)] of [startBatch] (lines 224-237); [old] is the
    hook's [tasks]. [existingTask?.id || generateId()] only calls
    [generateId] when there is no existing task (ids are never empty). *)
Fixpoint build_crop_tasks (old : list ProcessTask) (cropParams : CropParams)
    (outputSettings : OutputSettings) (images : list ImageFile) (h : Hook)
    : list ProcessTask * Hook :=
  match images with
  | [] => ([], h)
  | image :: ims =>
      let (nt, h1) :=
        match find_crop_task old image with
        | Some e =>
            if status_eqb (t_status e) COMPLETED then (e, h)
            else (pending_crop_task (t_id e) image cropParams outputSettings, h)
        | None =>
            let (nid, h1) := generateId h in
            (pending_crop_task nid image cropParams outputSettings, h1)
        end in
      let (rest, h2) := build_crop_tasks old cropParams outputSettings ims h1 in
      (nt :: rest, h2)
  end.

(** The effective settings of [startResizeBatch] (lines 250-253). *)
Definition effective_resize_settings (image : ImageFile)
    (resizeSettings : ProportionalResizeSettings) : ProportionalResizeSettings :=
  match img_batchResizeScaleFactor image with
  | Some f =>
      if js_truthy_num f then mkPRS f (prs_mode resizeSettings) else resizeSettings
  | None => resizeSettings
  end.

(** The [images.map(...)] of [startResizeBatch] (lines 248-265). *)
Fixpoint build_resize_tasks (resizeSettings : ProportionalResizeSettings)
    (outputSettings : OutputSettings) (images : list ImageFile) (h : Hook)
    : list ProcessTask * Hook :=
  match images with
  | [] => ([], h)
  | image :: ims =>
      let (nid, h1) := generateId h in
      let nt :=
        mkTask nid (img_id image) PTResize PENDING 0
          (Some (mkCropParams 0 0 0 0 None None None None))
          (Some (effective_resize_settings image resizeSettings))
          outputSettings None None in
      let (rest, h2) := build_resize_tasks resizeSettings outputSettings ims h1 in
      (nt :: rest, h2)
  end.

(** [pauseBatch] (lines 271-275). *)
Definition pauseBatch (h : Hook) : Hook :=
  mkHook (tasks h) false false (abortControllerRef h)
    (match abortControllerRef h with Some c => c :: aborted h | None => aborted h end)
    (next_ctrl h) (next_id h) (errors h).

(** [cancelBatch] (lines 278-283). *)
Definition cancelBatch (h : Hook) : Hook := set_tasks (pauseBatch h) [].

(** What happens to the hook: a call of one of its functions, or the
    settling of the promise the [k]-th run of [executeBatch] awaits. *)
Inductive Event :=
| EvStartBatch (images : list ImageFile) (cropParams : CropParams)
    (outputSettings : OutputSettings)
| EvStartResizeBatch (images : list ImageFile) (resizeSettings : ProportionalResizeSettings)
    (outputSettings : OutputSettings)
| EvRetryFailed (images : list ImageFile) (cropParams : CropParams)
    (outputSettings : OutputSettings)
| EvPause
| EvCancel
| EvResolve (k : nat).

Definition is_start (e : Event) : bool :=
  match e with
  | EvStartBatch _ _ _ | EvStartResizeBatch _ _ _ | EvRetryFailed _ _ _ => true
  | _ => false
  end.

Fixpoint replace_nth {A} (l : list A) (k : nat) (x : A) : list A :=
  match l, k with
  | [], _ => []
  | _ :: l', O => x :: l'
  | y :: l', Datatypes.S k' => y :: replace_nth l' k' x
  end.

Section Hook_api.

Variable env : Env.

(** [startBatch] (lines 219-240). *)
Definition startBatch (st : State) (images : list ImageFile) (cropParams : CropParams)
    (outputSettings : OutputSettings) : State :=
  let (h, runs) := st in
  let (newTasks, h1) := build_crop_tasks (tasks h) cropParams outputSettings images h in
  executeBatch (h1, runs) newTasks images.

(** [startResizeBatch] (lines 243-268). *)
Definition startResizeBatch (st : State) (images : list ImageFile)
    (resizeSettings : ProportionalResizeSettings) (outputSettings : OutputSettings)
    : State :=
  let (h, runs) := st in
  let (newTasks, h1) := build_resize_tasks resizeSettings outputSettings images h in
  executeBatch (h1, runs) newTasks images.

(** [retryFailed] (lines 286-294): it calls [startBatch]. *)
Definition retryFailed (st : State) (images : list ImageFile) (cropParams : CropParams)
    (outputSettings : OutputSettings) : State :=
  startBatch st images cropParams outputSettings.

Definition step (st : State) (e : Event) : State :=
  let (h, runs) := st in
  match e with
  | EvStartBatch ims cp os => startBatch st ims cp os
  | EvStartResizeBatch ims rs os => startResizeBatch st ims rs os
  | EvRetryFailed ims cp os => retryFailed st ims cp os
  | EvPause => (pauseBatch h, runs)
  | EvCancel => (cancelBatch h, runs)
  | EvResolve k =>
      match nth_error runs k with
      | Some r =>
          let (h', ph') := resolve env (run_images r) h (run_phase r) in
          (h', replace_nth runs k (mkRun (run_images r) ph'))
      | None => st
      end
  end.

Definition run_events (st : State) (evs : list Event) : State :=
  fold_left step evs st.

End Hook_api.

(** The awaited step of a suspended [processImage] that rejects: the
    decode, the engine step or the format conversion, with the task, the
    image, the rest of the loop and the [Error]'s message. *)
Definition await_failure (env : Env) (ph : Phase)
    : option (ProcessTask * ImageFile * list ProcessTask * string) :=
  match ph with
  | AwaitDecode t img _ rest =>
      match decode env img with RErr m => Some (t, img, rest, m) | ROk _ => None end
  | AwaitEngine t img _ src rest =>
      match engine_run env t img src with RErr m => Some (t, img, rest, m) | ROk _ => None end
  | AwaitEncode t img _ b rest =>
      match encode env b (t_outputSettings t) with
      | RErr m => Some (t, img, rest, m)
      | ROk _ => None
      end
  | _ => None
  end.

(** The failure-isolation scenario of spec section 8: five images, the
    third of which does not load. *)
Module FiveTasks.
Definition surf : Surface := mkSurface 10 10 (fun _ _ => Some 0).
Definition env : Env :=
  mkEnv (fun i => if Nat.eqb (img_id i) 3 then RErr "image load failed"%string else ROk surf)
    (fun s _ _ => ROk (BlobSurface s)) (fun b _ => ROk b).
Definition image (n : nat) : ImageFile :=
  mkImage n "img"%string 10 10 None None None.
Definition images : list ImageFile := map image [1; 2; 3; 4; 5]%nat.
Definition outputSettings : OutputSettings := mkOutputSettings Png 9 true EmptyString EmptyString.
Definition cropParams : CropParams := mkCropParams 5 5 0 0 None None None None.
Definition idle : Hook := mkHook [] false false None [] 0 100 [].
(** [startBatch], then every promise of the run settles in turn. *)
Definition final : State :=
  run_events env (idle, []) (EvStartBatch images cropParams outputSettings
                             :: repeat (EvResolve 0) 18).
End FiveTasks.

(** What [startBatch] (and so [retryFailed]) puts in the new list for one
    image: the existing crop task if it is completed, otherwise a pending
    crop task under the existing task's id, or under a fresh id
    ([>= n], the id counter before the call) when the image has no crop task. *)
Definition crop_rebuilt (old : list ProcessTask) (cropParams : CropParams)
    (outputSettings : OutputSettings) (n : nat) (image : ImageFile) (nt : ProcessTask)
    : Prop :=
  match find_crop_task old image with
  | Some e =>
      if status_eqb (t_status e) COMPLETED then nt = e
      else nt = pending_crop_task (t_id e) image cropParams outputSettings
  | None => exists k, (n <= k)%nat /\ nt = pending_crop_task k image cropParams outputSettings
  end.

(** Concrete inputs for the retry and re-batching properties. *)
Module Rebatch.
Definition image1 : ImageFile := FiveTasks.image 1.
Definition os : OutputSettings := FiveTasks.outputSettings.
Definition cp : CropParams := FiveTasks.cropParams.
Definition rs : ProportionalResizeSettings := mkPRS (3 # 2) ScaleDown.
(** A resize task of image 1 that completed. *)
Definition completed_resize : ProcessTask :=
  mkTask 7 1 PTResize COMPLETED 100 (Some (mkCropParams 0 0 0 0 None None None None))
    (Some rs) os None (Some (BlobResampled FiveTasks.surf 7 7)).
(** A crop task of image 1 that completed. *)
Definition completed_crop : ProcessTask :=
  mkTask 8 1 PTCrop COMPLETED 100 (Some cp) None os None
    (Some (BlobSurface FiveTasks.surf)).
Definition hook_with (ts : list ProcessTask) : Hook :=
  mkHook ts false false None [] 0 100 [].
End Rebatch.






(** The task a suspended run is working on, with its signal. *)
Definition in_flight (ph : Phase) : option (ProcessTask * nat) :=
  match ph with
  | AwaitDecode t _ c _ | AwaitEngine t _ c _ _ | AwaitEncode t _ c _ _ => Some (t, c)
  | _ => None
  end.




(* ------------------------------------------------------------------ *)
(** ** The 2D canvas used by [ImageProcessor.cropImage]

    Coordinates are exact rationals. The transform is the affine matrix
    [(a, b, c, d, e, f)] of [setTransform]: a point [(x, y)] goes to
    [(a x + c y + e, b x + d y + f)]. Path points are stored in device
    coordinates, transformed when they are added, as the canvas does.
    Pixels are sampled at their centres: a pixel is painted when its
    centre lies in the clip region and in the destination rectangle,
    with the source pixel under the mapped centre (nearest sample, opaque
    colours, rectangles of non-negative size). *)

Record Mat := mkMat { ma : Q; mb : Q; mc : Q; md : Q; me : Q; mf : Q }.

Inductive PathCmd :=
| PMoveTo (p : Q * Q)
| PLineTo (p : Q * Q)
| PQuadTo (cp : Q * Q) (p : Q * Q)
| PClose.

Definition Path := list PathCmd.

(** The canvas bitmap and its drawing state: the transform, the clip
    region (the intersection of the listed paths), the [save] stack and
    the current path. *)
Record Ctx := mkCtx {
  c_width : Z;
  c_height : Z;
  c_px : Z -> Z -> option Color;
  c_ctm : Mat;
  c_clip : list Path;
  c_stack : list (Mat * list Path);
  c_path : Path
}.

Section Canvas.

Local Open Scope Q_scope.

(** [Math.cos] and [Math.sin] as the canvas evaluates them, and the
    fill-region test of a path (is a point inside it). *)
Variable cos sin : Q -> Q.
Variable inside : Path -> Q * Q -> bool.

(** [Math.PI]: the double nearest to pi, as an exact rational. *)
Definition Math_PI : Q := 884279719003555 # 281474976710656.

Definition Qlt_bool (a b : Q) : bool := negb (Qle_bool b a).

Definition mat_id : Mat := mkMat 1 0 0 1 0 0.

Definition apply_mat (m : Mat) (p : Q * Q) : Q * Q :=
  (ma m * fst p + mc m * snd p + me m, mb m * fst p + md m * snd p + mf m).

(** The point the transform sends to [p], when the transform is invertible. *)
Definition mat_inverse_apply (m : Mat) (p : Q * Q) : option (Q * Q) :=
  let det := ma m * md m - mb m * mc m in
  if Qeq_bool det 0 then None
  else
    let x := fst p - me m in
    let y := snd p - mf m in
    Some ((md m * x - mc m * y) / det, (ma m * y - mb m * x) / det).

(** [canvas.width = v] / [canvas.height = v]: a value outside
    [0 .. 2147483647] sets the default size. *)
Definition canvas_dim (v default : Z) : Z :=
  if (0 <=? v)%Z && (v <=? 2147483647)%Z then v else default.

(** Setting [width] or [height] clears the bitmap and resets the context. *)
Definition set_canvas_width (c : Ctx) (v : Z) : Ctx :=
  mkCtx (canvas_dim v 300) (c_height c) (fun _ _ => None) mat_id [] [] [].

Definition set_canvas_height (c : Ctx) (v : Z) : Ctx :=
  mkCtx (c_width c) (canvas_dim v 150) (fun _ _ => None) mat_id [] [] [].

Definition with_ctm (c : Ctx) (m : Mat) : Ctx :=
  match c with mkCtx w h px _ cl st p => mkCtx w h px m cl st p end.

Definition with_path (c : Ctx) (f : Mat -> Path -> Path) : Ctx :=
  match c with mkCtx w h px m cl st p => mkCtx w h px m cl st (f m p) end.

Definition with_px (c : Ctx) (px : Z -> Z -> option Color) : Ctx :=
  match c with mkCtx w h _ m cl st p => mkCtx w h px m cl st p end.

Definition save (c : Ctx) : Ctx :=
  match c with mkCtx w h px m cl st p => mkCtx w h px m cl ((m, cl) :: st) p end.

Definition restore (c : Ctx) : Ctx :=
  match c with
  | mkCtx w h px _ _ ((m, cl) :: st) p => mkCtx w h px m cl st p
  | mkCtx _ _ _ _ _ [] _ => c
  end.

Definition translate (c : Ctx) (x y : Q) : Ctx :=
  match c with
  | mkCtx w h px m cl st p =>
      mkCtx w h px (mkMat (ma m) (mb m) (mc m) (md m)
                      (ma m * x + mc m * y + me m) (mb m * x + md m * y + mf m)) cl st p
  end.

Definition rotate (c : Ctx) (angle : Q) : Ctx :=
  let co := cos angle in
  let si := sin angle in
  match c with
  | mkCtx w h px m cl st p =>
      mkCtx w h px (mkMat (ma m * co + mc m * si) (mb m * co + md m * si)
                      (mc m * co - ma m * si) (md m * co - mb m * si) (me m) (mf m)) cl st p
  end.

Definition scale (c : Ctx) (sx sy : Q) : Ctx :=
  match c with
  | mkCtx w h px m cl st p =>
      mkCtx w h px (mkMat (ma m * sx) (mb m * sx) (mc m * sy) (md m * sy) (me m) (mf m)) cl st p
  end.

Definition beginPath (c : Ctx) : Ctx := with_path c (fun _ _ => []).

Definition moveTo (c : Ctx) (x y : Q) : Ctx :=
  with_path c (fun m p => p ++ [PMoveTo (apply_mat m (x, y))]).

Definition lineTo (c : Ctx) (x y : Q) : Ctx :=
  with_path c (fun m p => p ++ [PLineTo (apply_mat m (x, y))]).

Definition quadraticCurveTo (c : Ctx) (cpx cpy x y : Q) : Ctx :=
  with_path c (fun m p => p ++ [PQuadTo (apply_mat m (cpx, cpy)) (apply_mat m (x, y))]).

Definition closePath (c : Ctx) : Ctx := with_path c (fun _ p => p ++ [PClose]).

(** [clip()]: the clip region becomes its intersection with the path. *)
Definition clip (c : Ctx) : Ctx :=
  match c with mkCtx w h px m cl st p => mkCtx w h px m (p :: cl) st p end.

Definition pixel_centre (i j : Z) : Q * Q := (inject_Z i + (1 # 2), inject_Z j + (1 # 2)).

Definition in_bitmap (c : Ctx) (i j : Z) : bool :=
  (0 <=? i)%Z && (i <? c_width c)%Z && (0 <=? j)%Z && (j <? c_height c)%Z.

Definition in_clip (c : Ctx) (p : Q * Q) : bool := forallb (fun pa => inside pa p) (c_clip c).

Definition in_rect (x y w h : Q) (p : Q * Q) : bool :=
  Qle_bool x (fst p) && Qlt_bool (fst p) (x + w)
  && Qle_bool y (snd p) && Qlt_bool (snd p) (y + h).

(** The user-space point under the centre of pixel [(i, j)], when it is
    painted by an operation on the rectangle [(x, y, w, h)]. *)
Definition painted_point (c : Ctx) (x y w h : Q) (i j : Z) : option (Q * Q) :=
  if in_bitmap c i j && in_clip c (pixel_centre i j) then
    match mat_inverse_apply (c_ctm c) (pixel_centre i j) with
    | Some q => if in_rect x y w h q then Some q else None
    | None => None
    end
  else None.

Definition clearRect (c : Ctx) (x y w h : Q) : Ctx :=
  with_px c (fun i j =>
    match painted_point c x y w h i j with
    | Some _ => None
    | None => c_px c i j
    end).

(** [drawImage(img, sx, sy, sw, sh, dx, dy, dw, dh)]. *)
Definition drawImage (c : Ctx) (img : Surface) (sx sy sw sh dx dy dw dh : Q) : Ctx :=
  with_px c (fun i j =>
    match painted_point c dx dy dw dh i j with
    | Some q =>
        let u := Qfloor (sx + (fst q - dx) * (sw / dw)) in
        let v := Qfloor (sy + (snd q - dy) * (sh / dh)) in
        if (0 <=? u)%Z && (u <? s_width img)%Z && (0 <=? v)%Z && (v <? s_height img)%Z then
          match s_px img u v with
          | Some col => Some col
          | None => c_px c i j
          end
        else c_px c i j
    | None => c_px c i j
    end).

Definition canvas_surface (c : Ctx) : Surface :=
  mkSurface (c_width c) (c_height c) (c_px c).

(** [createRoundedRectPath(x, y, width, height, radius)]. *)
Definition createRoundedRectPath (c : Ctx) (x y width height radius : Q) : Ctx :=
  let actualRadius := Qmin (Qmin radius (width / 2)) (height / 2) in
  let c := beginPath c in
  let c := moveTo c (x + actualRadius) y in
  let c := lineTo c (x + width - actualRadius) y in
  let c := quadraticCurveTo c (x + width) y (x + width) (y + actualRadius) in
  let c := lineTo c (x + width) (y + height - actualRadius) in
  let c := quadraticCurveTo c (x + width) (y + height) (x + width - actualRadius) (y + height) in
  let c := lineTo c (x + actualRadius) (y + height) in
  let c := quadraticCurveTo c x (y + height) x (y + height - actualRadius) in
  let c := lineTo c x (y + actualRadius) in
  let c := quadraticCurveTo c x y (x + actualRadius) y in
  closePath c.

Definition rotation_of (cp : CropParams) : Q :=
  match cp_rotation cp with Some r => r | None => 0 end.
Definition flipH_of (cp : CropParams) : bool :=
  match cp_flipHorizontal cp with Some b => b | None => false end.
Definition flipV_of (cp : CropParams) : bool :=
  match cp_flipVertical cp with Some b => b | None => false end.
Definition borderRadius_of (cp : CropParams) : Q :=
  match cp_borderRadius cp with Some r => r | None => 0 end.

(** [cropImage], lines 39-59: canvas size, [clearRect], [save], then the
    move to the centre, the rotation and the flip. *)
Definition crop_setup (c0 : Ctx) (cp : CropParams) : Ctx :=
  let width := cp_width cp in
  let height := cp_height cp in
  let rotation := rotation_of cp in
  let c := set_canvas_width c0 width in
  let c := set_canvas_height c height in
  let c := clearRect c 0 0 (inject_Z width) (inject_Z height) in
  let c := save c in
  let c := translate c (inject_Z width / 2) (inject_Z height / 2) in
  let c := if negb (Qeq_bool rotation 0) then rotate c (rotation * Math_PI / 180) else c in
  let scaleX := if flipH_of cp then -1 else 1 in
  let scaleY := if flipV_of cp then -1 else 1 in
  scale c scaleX scaleY.

(** Lines 62-79: the rounded clip when [borderRadius > 0]. *)
Definition crop_clip (c : Ctx) (cp : CropParams) : Ctx :=
  let width := cp_width cp in
  let height := cp_height cp in
  let rotation := rotation_of cp in
  let borderRadius := borderRadius_of cp in
  let scaleX := if flipH_of cp then -1 else 1 in
  let scaleY := if flipV_of cp then -1 else 1 in
  if Qlt_bool 0 borderRadius then
    let c := restore c in
    let c := save c in
    let actualRadius := inject_Z (Z.min width height) * borderRadius / 2 in
    let c := createRoundedRectPath c 0 0 (inject_Z width) (inject_Z height) actualRadius in
    let c := clip c in
    let c := translate c (inject_Z width / 2) (inject_Z height / 2) in
    let c := if negb (Qeq_bool rotation 0) then rotate c (rotation * Math_PI / 180) else c in
    scale c scaleX scaleY
  else c.

(** Lines 82-89: [drawImage] of the crop rectangle centred on the origin,
    then [restore]. *)
Definition crop_draw (c : Ctx) (img : Surface) (cp : CropParams) : Ctx :=
  let width := inject_Z (cp_width cp) in
  let height := inject_Z (cp_height cp) in
  let c := drawImage c img (inject_Z (cp_x cp)) (inject_Z (cp_y cp)) width height
             (- width / 2) (- height / 2) width height in
  restore c.

(** The user agent's limit on canvas bitmaps: whether it can allocate and
    encode a bitmap of that width and height. Browsers cap the side and
    the area of a canvas; beyond the cap [canvas.toBlob] hands [null] to
    its callback. *)
Variable encodable : Z -> Z -> bool.

(** [canvas.toBlob(callback, 'image/png')] followed by the callback of
    [cropImage]: the blob is [null] on a bitmap without pixels and on a
    bitmap beyond the user agent's limit, and the promise then rejects
    with [new Error(msg)]. *)
Definition toBlob (c : Ctx) (msg : string) : res Blob :=
  if ((c_width c =? 0)%Z || (c_height c =? 0)%Z
      || negb (encodable (c_width c) (c_height c))) then RErr msg
  else ROk (BlobSurface (canvas_surface c)).

(** The messages of the [Error]s [cropImage] rejects with. *)
Definition RESIZE_FAILED : string := "image resize failed".
Definition CROP_FAILED : string := "image processing failed".
(** The message of the [InvalidStateError] that [drawImage] throws when
    its source is a canvas without pixels (the text is the browser's). *)
Definition DRAW_FAILED : string := "InvalidStateError".

(** [cropImage(imageElement, cropParams, outputSettings)]: the processor's
    canvas after the call, and the settled promise. [outputSettings] is
    an optional object with an optional [resizeTarget]. *)
Definition cropImage (c0 : Ctx) (img : Surface) (cp : CropParams)
    (outputSettings : option (option ResizeTarget)) : Ctx * res Blob :=
  let c := crop_draw (crop_clip (crop_setup c0 cp) cp) img cp in
  match outputSettings with
  | Some (Some rt) =>
      if rt_enabled rt then
        (* [tempCtx.drawImage(this.canvas, ...)] throws on an empty canvas *)
        if ((c_width c =? 0)%Z || (c_height c =? 0)%Z) then (c, RErr DRAW_FAILED)
        else
          let tw := canvas_dim (rt_width rt) 300 in
          let th := canvas_dim (rt_height rt) 150 in
          (* [tempCanvas.toBlob]: [null] without pixels or beyond the limit *)
          if ((tw =? 0)%Z || (th =? 0)%Z || negb (encodable tw th)) then (c, RErr RESIZE_FAILED)
          else (c, ROk (BlobResampled (canvas_surface c) tw th))
      else (c, toBlob c CROP_FAILED)
  | _ => (c, toBlob c CROP_FAILED)
  end.

End Canvas.

(** The rounded rectangle of the spec: the box [(0, 0, w, h)] with
    corners of radius [r], each corner a quadratic curve whose control
    point is the box corner, traced clockwise from the top edge. *)
Definition rounded_rect (w h r : Q) : Path :=
  ([PMoveTo (r, 0); PLineTo (w - r, 0); PQuadTo (w, 0) (w, r);
    PLineTo (w, h - r); PQuadTo (w, h) (w - r, h); PLineTo (r, h);
    PQuadTo (0, h) (0, h - r); PLineTo (0, r); PQuadTo (0, 0) (r, 0); PClose])%Q.

(** Paths with the same points. *)
Definition pt_eqv (p q : Q * Q) : Prop := (fst p == fst q)%Q /\ (snd p == snd q)%Q.

Definition cmd_eqv (a b : PathCmd) : Prop :=
  match a, b with
  | PMoveTo p, PMoveTo q | PLineTo p, PLineTo q => pt_eqv p q
  | PQuadTo p1 p2, PQuadTo q1 q2 => pt_eqv p1 q1 /\ pt_eqv p2 q2
  | PClose, PClose => True
  | _, _ => False
  end.

Definition path_eqv (p q : Path) : Prop := Forall2 cmd_eqv p q.

(** A blank canvas, a 120 x 250 source and two crops of its top-left
    100 x 200 box, one with rounded corners. *)
Module CanvasDemo.
Definition blank : Ctx := mkCtx 0 0 (fun _ _ => None) mat_id [] [] [].
Definition src : Surface := mkSurface 120 250 (fun i j => Some (1000 * i + j)).
Definition cp_round : CropParams :=
  mkCropParams 100 200 0 0 None None None (Some (1 # 2)%Q).
Definition cp_plain : CropParams := mkCropParams 100 200 0 0 None None None None.
Definition trig (a : Q) : Q := 0%Q.
Definition inside_all (p : Path) (q : Q * Q) : bool := true.
(** A canvas limit as in Chromium-based browsers: sides up to 65535 and an
    area up to 268435456 pixels (16384 x 16384). *)
Definition chromium_limit (w h : Z) : bool :=
  (w <=? 65535) && (h <=? 65535) && (w * h <=? 268435456).
End CanvasDemo.

(* ------------------------------------------------------------------ *)
(** ** Double-precision arithmetic ([calculateRotatedSize]) *)

Section Doubles.

Local Open Scope Q_scope.

(** [2 ^ e] for any integer [e]. *)
Definition pow2 (e : Z) : Q :=
  if (0 <=? e)%Z then inject_Z (2 ^ e) else 1 # Z.to_pos (2 ^ (- e)).

(** Rounding to the nearest integer, ties to even. *)
Definition round_even (q : Q) : Z :=
  let f := Qfloor q in
  let r := q - inject_Z f in
  if Qlt_bool r (1 # 2) then f
  else if Qlt_bool (1 # 2) r then (f + 1)%Z
  else if Z.even f then f else (f + 1)%Z.

(** The double nearest to the positive rational [n / d]: its exponent [e]
    puts [n / d / 2 ^ e] in [[2 ^ 52, 2 ^ 53)], and that 53-bit
    significand is rounded to the nearest integer, ties to even. *)
Definition fl_pos (n : Z) (d : positive) : Q :=
  let x := n # d in
  let e0 := (Z.log2 n - Z.log2 (Zpos d) - 52)%Z in
  let e := if Qlt_bool (x / pow2 e0) (inject_Z (2 ^ 52)) then (e0 - 1)%Z else e0 in
  inject_Z (round_even (x / pow2 e)) * pow2 e.

(** A JS arithmetic operation returns its exact result rounded to the
    nearest double (IEEE 754 binary64, round to nearest, ties to even).
    The values met here are normal doubles: subnormals and overflow are
    not modelled. *)
Definition fl (x : Q) : Q :=
  match Qred x with
  | Qmake (Zpos p) d => fl_pos (Zpos p) d
  | Qmake (Zneg p) d => - fl_pos (Zpos p) d
  | Qmake Z0 _ => 0
  end.

(** [Math.cos] and [Math.sin] of the platform, on doubles. *)
Variable Math_cos Math_sin : Q -> Q.

(** [ImageProcessor.calculateRotatedSize]: every [*], [/] and [+] of the
    source rounds to a double; [Math.abs] and [Math.ceil] are exact. The
    result object [{ width, height }] is a pair. *)
Definition calculateRotatedSize (width height rotation : Q) : Z * Z :=
  let radians := fl (fl (rotation * Math_PI) / 180) in
  let cos := Qabs (Math_cos radians) in
  let sin := Qabs (Math_sin radians) in
  let rotatedWidth := fl (fl (width * cos) + fl (height * sin)) in
  let rotatedHeight := fl (fl (width * sin) + fl (height * cos)) in
  (Qceiling rotatedWidth, Qceiling rotatedHeight).

End Doubles.

(** A reference [Math.cos] and [Math.sin] for arguments of magnitude at
    most 2: the Taylor polynomials of degree 48 and 49, within [10 ^ -49]
    of the cosine and sine there, evaluated exactly by Horner's scheme
    and rounded to the nearest double. *)
Module Libm.
Local Open Scope Q_scope.

(** [fl] on the fraction [n / d], without reducing it first. *)
Definition fl_frac (n : Z) (d : positive) : Q :=
  match n with
  | Zpos _ => fl_pos n d
  | Zneg p => - fl_pos (Zpos p) d
  | Z0 => 0
  end.

(** [(h, d)] with [h / d = 1 - x2 / (m (m + 1)) * (1 - x2 / ((m + 2) (m + 3))
    * (1 - ...))] for [m = 2 j + first], [x2 = x2n / x2d], [fuel] factors. *)
Fixpoint horner (x2n x2d : Z) (first j : Z) (fuel : nat) : Z * Z :=
  match fuel with
  | O => (1%Z, 1%Z)
  | S f =>
      let '(h, d) := horner x2n x2d first (j + 1) f in
      let c := ((2 * j + first) * (2 * j + first + 1) * x2d)%Z in
      ((d * c - x2n * h)%Z, (d * c)%Z)
  end.

Definition cos (x : Q) : Q :=
  let '(h, d) := horner (Qnum x * Qnum x) (Zpos (Qden x * Qden x)) 1 0 24 in
  fl_frac h (Z.to_pos d).

Definition sin (x : Q) : Q :=
  let '(h, d) := horner (Qnum x * Qnum x) (Zpos (Qden x * Qden x)) 2 0 24 in
  fl_frac (Qnum x * h) (Z.to_pos d * Qden x).
End Libm.


(* ------------------------------------------------------------------ *)
(** ** Further code: the browser engine, the image filter, navigation
    and the resize settings of the selected image *)

(** The fields of a task that [updateTask] never changes. *)
Definition task_key (t : ProcessTask)
    : nat * nat * ProcessType * option CropParams
      * option ProportionalResizeSettings * OutputSettings :=
  (t_id t, t_imageId t, t_processType t, t_cropParams t, t_resizeSettings t,
   t_outputSettings t).

(** The canvas of [new ImageProcessor()] (line 75 of [processImage]): a
    fresh 300 x 150 canvas with no pixels and a default context. *)
Definition fresh_canvas : Ctx := mkCtx 300 150 (fun _ _ => None) mat_id [] [] [].

(** The crop step of [processImage] in the browser (line 96):
    [processor.cropImage(imageElement, effectiveCropParams, resizeSettings)].
    [resizeSettings] is a [ResizeTarget] object [{ enabled, width, height }]
    passed as [cropImage]'s [outputSettings]: it has no [resizeTarget]
    field, so [outputSettings?.resizeTarget] is [undefined]. *)
Definition processor_crop (cos sin : Q -> Q) (inside : Path -> Q * Q -> bool)
    (encodable : Z -> Z -> bool)
    (src : Surface) (cp : CropParams) (resizeSettings : ResizeTarget) : res Blob :=
  snd (cropImage cos sin inside encodable fresh_canvas src cp (Some None)).

Definition browser_env (cos sin : Q -> Q) (inside : Path -> Q * Q -> bool)
    (encodable : Z -> Z -> bool)
    (dec : ImageFile -> res Surface) (enc : Blob -> OutputSettings -> res Blob) : Env :=
  mkEnv dec (processor_crop cos sin inside encodable) enc.

(** [FilterSettings] of [useImageFilter]; [undefined] is [None]. *)
Record FilterSettings := mkFilterSettings {
  minWidth : option Q;
  minHeight : option Q
}.

(** [settings.min !== undefined && settings.min > 0 && size <= settings.min]. *)
Definition below_min (v : option Q) (size : Z) : bool :=
  match v with
  | Some m => Qlt_bool 0 m && Qle_bool (inject_Z size) m
  | None => false
  end.

(** The predicate of [images.filter(...)] (lines 19-34). *)
Definition keep_image (fs : FilterSettings) (image : ImageFile) : bool :=
  if below_min (minWidth fs) (img_width image) then false
  else if below_min (minHeight fs) (img_height image) then false
  else true.

Definition filteredImages (fs : FilterSettings) (images : list ImageFile) : list ImageFile :=
  filter (keep_image fs) images.

(** A setting [fs'] at least as strict as [fs]: every active threshold of
    [fs] is active in [fs'] with a value at least as large. *)
Definition stricter (fs' fs : FilterSettings) : Prop :=
  (forall m, minWidth fs = Some m -> 0 < m -> exists m', minWidth fs' = Some m' /\ m <= m')%Q
  /\ (forall m, minHeight fs = Some m -> 0 < m -> exists m', minHeight fs' = Some m' /\ m <= m')%Q.

Definition filter_active (v : option Q) : bool :=
  match v with Some m => Qlt_bool 0 m | None => false end.

(** [activeFilterCount] (lines 38-43). *)
Definition activeFilterCount (fs : FilterSettings) : nat :=
  (if filter_active (minWidth fs) then 1 else 0) + (if filter_active (minHeight fs) then 1 else 0).

(** The settings [resetFilters] sets (lines 45-50). *)
Definition reset_filter_settings : FilterSettings := mkFilterSettings None None.

(** [filteredImages.findIndex(img => img.id === id)]: [-1] when absent. *)
Fixpoint findIndex (ims : list ImageFile) (id : nat) : Z :=
  match ims with
  | [] => -1
  | i :: rest =>
      if Nat.eqb (img_id i) id then 0
      else let k := findIndex rest id in if (k <? 0)%Z then -1 else k + 1
  end.

(** No image of the list has the id [id]. *)
Definition no_id (id : nat) (l : list ImageFile) : Prop := Forall (fun i => img_id i <> id) l.

(** [filteredImages[k].id] for an index [k] the handlers have checked. *)
Definition id_at (ims : list ImageFile) (k : Z) : option nat :=
  option_map img_id (nth_error ims (Z.to_nat k)).

(** [handlePrevious] of [CropifyApp]: the id passed to [selectImage], or
    [None] when it returns without selecting. *)
Definition handlePrevious (selectedImageId : option nat) (filtered : list ImageFile)
    : option nat :=
  match selectedImageId with
  | None => None
  | Some sid =>
      let index := findIndex filtered sid in
      if (0 <? index)%Z then id_at filtered (index - 1) else None
  end.

(** [handleNext] of [CropifyApp]. *)
Definition handleNext (selectedImageId : option nat) (filtered : list ImageFile)
    : option nat :=
  match selectedImageId with
  | None => None
  | Some sid =>
      let index := findIndex filtered sid in
      if (index <? Z.of_nat (List.length filtered) - 1)%Z then id_at filtered (index + 1)
      else None
  end.

(** [currentIndex] of [CropifyApp]. *)
Definition currentIndex (selectedImageId : option nat) (filtered : list ImageFile) : Z :=
  match selectedImageId with
  | Some sid => findIndex filtered sid
  | None => -1
  end.

(** The [disabled] flags of the buttons of [ImageNavigationPanel]. *)
Definition previous_disabled (currentIndex : Z) : bool := (currentIndex <=? 0)%Z.
Definition next_disabled (currentIndex : Z) (totalImages : Z) : bool :=
  (totalImages - 1 <=? currentIndex)%Z.

(** The effect of [CropifyApp] on [filteredImages] (lines 74-83): the id
    passed to [selectImage], if any. *)
Definition selection_fix (selectedImageId : option nat) (filtered : list ImageFile)
    : option nat :=
  match filtered, selectedImageId with
  | first :: _, Some sid =>
      match find (fun img => Nat.eqb (img_id img) sid) filtered with
      | Some _ => None
      | None => Some (img_id first)
      end
  | first :: _, None => Some (img_id first)
  | [], _ => None
  end.

(** The new selection once that effect has run. *)
Definition after_selection_fix (selectedImageId : option nat) (filtered : list ImageFile)
    : option nat :=
  match selection_fix selectedImageId filtered with
  | Some id => Some id
  | None => selectedImageId
  end.

(** State of [useResizeScaling]: the [resizeSettings] state (set by
    [setResizeSettingsState]) and the refs [lastSettingsRef] and
    [lastImageIdRef] ([undefined] is [None]). *)
Record ResizeScaling := mkResizeScaling {
  resizeSettingsState : ResizeTarget;
  lastSettings : ResizeTarget;
  lastImageId : option nat
}.

(** [defaultSettings]. *)
Definition default_resize_settings : ResizeTarget := mkResizeTarget false 1024 1024.

(** The state after the first render. *)
Definition resize_scaling_init : ResizeScaling :=
  mkResizeScaling default_resize_settings default_resize_settings None.

(** [setResizeSettings] (lines 24-31). *)
Definition setResizeSettings (st : ResizeScaling) (s : ResizeTarget) : ResizeScaling :=
  mkResizeScaling s s (lastImageId st).

(** [resetResizeSettings] (lines 34-47). *)
Definition resetResizeSettings (st : ResizeScaling) (image : option ImageFile) : ResizeScaling :=
  match image with
  | None => mkResizeScaling default_resize_settings (lastSettings st) (lastImageId st)
  | Some img =>
      match img_resizeTarget img with
      | Some r => mkResizeScaling r (lastSettings st) (lastImageId st)
      | None => mkResizeScaling (lastSettings st) (lastSettings st) (lastImageId st)
      end
  end.

Definition option_nat_eqb (a b : option nat) : bool :=
  match a, b with
  | Some x, Some y => Nat.eqb x y
  | None, None => true
  | _, _ => false
  end.

(** The effect on [selectedImage] (lines 53-59), run after a render with
    that selected image. *)
Definition selection_effect (st : ResizeScaling) (selectedImage : option ImageFile)
    : ResizeScaling :=
  let sid := option_map img_id selectedImage in
  if negb (option_nat_eqb sid (lastImageId st)) then
    resetResizeSettings (mkResizeScaling (resizeSettingsState st) (lastSettings st) sid)
      selectedImage
  else st.

(* ================================================================== *)
(** * Properties *)

(** C1. When the awaited decode, engine step or format conversion of a
    task rejects, resuming that run marks exactly the entries of that
    task [failed] (status, message, progress 0) and leaves every other
    entry as it was, hands exactly one processing error to [onError],
    leaves the flags that decide whether the loop goes on untouched and
    puts the run where a successful task also leaves it: before the
    yield that precedes the next task of the list. In the five-task
    scenario where the third image does not load, the run ends with four
    completed tasks and one failed task, after having run all five. *)
Theorem processImage_failure_isolated :
  (forall env h runs k r t img rest msg,
     nth_error runs k = Some r ->
     await_failure env (run_phase r) = Some (t, img, rest, msg) ->
     let st' := step env (h, runs) (EvResolve k) in
     tasks (fst st') =
       map (fun x => if Nat.eqb (t_id x) (t_id t) then apply_update (SetFailed msg) x else x)
         (tasks h)
     /\ errors (fst st') =
          errors h ++ [mkAppError (next_id h) "processing" PROCESSING_FAILED (img_name img)]
     /\ isProcessing (fst st') = isProcessing h
     /\ processingRef (fst st') = processingRef h
     /\ abortControllerRef (fst st') = abortControllerRef h
     /\ aborted (fst st') = aborted h
     /\ snd st' = replace_nth runs k (mkRun (run_images r) (AwaitYield rest)))
  /\ map t_status (tasks (fst FiveTasks.final))
       = [COMPLETED; COMPLETED; FAILED; COMPLETED; COMPLETED]
  /\ List.length (errors (fst FiveTasks.final)) = 1%nat
  /\ map run_phase (snd FiveTasks.final) = [Done].
Proof.
  split; [| vm_compute; repeat split; reflexivity].
  intros env h runs k r t img rest msg Hk Hf st'.
  subst st'. simpl. rewrite Hk.
  destruct r as [ims ph]; simpl in *.
  destruct ph as [t0 img0 c rest0 | t0 img0 c src rest0 | t0 img0 c b rest0 | rest0 |];
    simpl in Hf; try discriminate.
  - destruct (decode env img0) eqn:Hd; try discriminate.
    injection Hf as <- <- <- <-. simpl. rewrite Hd. simpl.
    repeat split; reflexivity.
  - destruct (engine_run env t0 img0 src) eqn:Hd; try discriminate.
    injection Hf as <- <- <- <-. simpl. rewrite Hd. simpl.
    repeat split; reflexivity.
  - destruct (encode env b (t_outputSettings t0)) eqn:Hd; try discriminate.
    injection Hf as <- <- <- <-. simpl. rewrite Hd. simpl.
    repeat split; reflexivity.
Qed.

Lemma js_round_mono : forall a b : Q, (a <= b)%Q -> js_round a <= js_round b.
Proof.
  intros a b H. unfold js_round. apply Qfloor_resp_le.
  apply Qplus_le_compat; [exact H | apply Qle_refl].
Qed.

Lemma div_antitone : forall (w : Z) (f1 f2 : Q),
    0 <= w -> (0 < f1)%Q -> (f1 < f2)%Q -> (inject_Z w / f2 <= inject_Z w / f1)%Q.
Proof.
  intros w f1 f2 Hw H1 H12.
  assert (H2 : (0 < f2)%Q) by (eapply Qlt_trans; eassumption).
  unfold Qdiv. apply Qmult_le_compat_nonneg.
  - split; [| apply Qle_refl]. unfold Qle; simpl; lia.
  - split.
    + apply Qinv_le_0_compat, Qlt_le_weak, H2.
    + apply Qlt_le_weak. apply (proj1 (Qinv_lt_contravar f1 f2 H1 H2) H12).
Qed.

Lemma resize_dims_pos : forall w h f, (0 < f)%Q ->
  resize_dims w h f =
  inr (Z.max 1 (js_round (inject_Z w / f)), Z.max 1 (js_round (inject_Z h / f))).
Proof.
  intros w h f Hf. unfold resize_dims.
  destruct (Qle_bool f 0) eqn:E; [| reflexivity].
  apply Qle_bool_iff in E. exfalso. apply (Qlt_not_le _ _ Hf E).
Qed.

(** C5. For a positive scale factor the proportional resize outputs
    [max 1 (round(width / f))] by [max 1 (round(height / f))]; a larger
    factor never gives a larger side; a 3000x3000 source at factor 1.5
    gives 2000x2000. *)
Theorem resize_output_dims :
  (forall src f, (0 < f)%Q ->
     resizeImageProportionally src f =
     inr (BlobResampled src (Z.max 1 (js_round (inject_Z (s_width src) / f)))
                            (Z.max 1 (js_round (inject_Z (s_height src) / f)))))
  /\ (forall src f1 f2 w1 h1 w2 h2,
        0 <= s_width src -> 0 <= s_height src -> (0 < f1)%Q -> (f1 < f2)%Q ->
        resizeImageProportionally src f1 = inr (BlobResampled src w1 h1) ->
        resizeImageProportionally src f2 = inr (BlobResampled src w2 h2) ->
        w2 <= w1 /\ h2 <= h1)
  /\ (forall px, resizeImageProportionally (mkSurface 3000 3000 px) (3 # 2)
                 = inr (BlobResampled (mkSurface 3000 3000 px) 2000 2000)).
Proof.
  split; [| split].
  - intros src f Hf. unfold resizeImageProportionally. rewrite resize_dims_pos by exact Hf.
    reflexivity.
  - intros src f1 f2 w1 h1 w2 h2 Hw Hh H1 H12 E1 E2.
    assert (H2 : (0 < f2)%Q) by (eapply Qlt_trans; eassumption).
    unfold resizeImageProportionally in E1, E2.
    rewrite resize_dims_pos in E1 by exact H1. rewrite resize_dims_pos in E2 by exact H2.
    injection E1 as <- <-. injection E2 as <- <-.
    pose proof (js_round_mono _ _ (div_antitone _ _ _ Hw H1 H12)).
    pose proof (js_round_mono _ _ (div_antitone _ _ _ Hh H1 H12)).
    lia.
  - intros px. reflexivity.
Qed.

(** C6. The proportional resize fails with [InvalidScaleFactor] exactly
    for the scale factors [<= 0], only produces an output for positive
    ones, and in [processImage] the engine step of a resize task whose
    scale factor is [<= 0] rejects with that error, so it is never resized. *)
Theorem resize_rejects_nonpositive :
  (forall src f, resizeImageProportionally src f = inl InvalidScaleFactor <-> (f <= 0)%Q)
  /\ (forall src f b, resizeImageProportionally src f = inr b -> (0 < f)%Q)
  /\ (forall env t img src rs,
        t_processType t = PTResize -> t_resizeSettings t = Some rs ->
        (prs_scaleFactor rs <= 0)%Q ->
        engine_run env t img src = RErr "InvalidScaleFactor"%string).
Proof.
  assert (Hneg : forall src f, (f <= 0)%Q -> resizeImageProportionally src f = inl InvalidScaleFactor).
  { intros src f Hf. unfold resizeImageProportionally, resize_dims.
    apply Qle_bool_iff in Hf. rewrite Hf. reflexivity. }
  split; [| split].
  - intros src f. split; [| apply Hneg].
    intros E. destruct (Qlt_le_dec 0 f) as [Hf | Hf]; [| exact Hf].
    unfold resizeImageProportionally in E. rewrite resize_dims_pos in E by exact Hf.
    discriminate.
  - intros src f b E. destruct (Qlt_le_dec 0 f) as [Hf | Hf]; [exact Hf |].
    rewrite Hneg in E by exact Hf. discriminate.
  - intros env t img src rs Ht Hr Hf. unfold engine_run. rewrite Ht, Hr.
    rewrite Hneg by exact Hf. reflexivity.
Qed.

Lemma build_crop_tasks_spec : forall old cp os images h n,
    (n <= next_id h)%nat ->
    Forall2 (crop_rebuilt old cp os n) images (fst (build_crop_tasks old cp os images h)).
Proof.
  intros old cp os images. induction images as [| im ims IH]; intros h n Hn; simpl.
  - constructor.
  - destruct (find_crop_task old im) as [e |] eqn:E.
    + destruct (status_eqb (t_status e) COMPLETED) eqn:Es;
        destruct (build_crop_tasks old cp os ims h) as [rest h2] eqn:B; simpl;
        constructor; unfold crop_rebuilt; try rewrite E; try rewrite Es; try reflexivity;
        specialize (IH h n Hn); rewrite B in IH; exact IH.
    + destruct (build_crop_tasks old cp os ims (snd (generateId h))) as [rest h2] eqn:B.
      simpl in B |- *. rewrite B. simpl. constructor.
      * unfold crop_rebuilt. rewrite E. exists (next_id h). split; [exact Hn | reflexivity].
      * specialize (IH (mkHook (tasks h) (isProcessing h) (processingRef h)
                          (abortControllerRef h) (aborted h) (next_ctrl h)
                          (Datatypes.S (next_id h)) (errors h)) n).
        simpl in IH. rewrite B in IH. apply IH. lia.
Qed.

(** C3 (counterexample). A cancelled crop task is not left untouched by
    [retryFailed]: it is reset and run again. A crop batch of image 1 is
    paused while its decode is awaited; the decode then settles, the task
    is cancelled at the check that follows and the run ends. Retrying
    with the same arguments starts processing the cancelled task. *)
Lemma retryFailed_touches_cancelled :
  let st := run_events FiveTasks.env (FiveTasks.idle, [])
              [EvStartBatch [Rebatch.image1] Rebatch.cp Rebatch.os;
               EvPause; EvResolve 0; EvResolve 0] in
  let st' := step FiveTasks.env st (EvRetryFailed [Rebatch.image1] Rebatch.cp Rebatch.os) in
  map (fun t => (t_id t, t_status t)) (tasks (fst st)) = [(100%nat, CANCELLED)]
  /\ map (fun t => (t_id t, t_status t)) (tasks (fst st')) = [(100%nat, PROCESSING)]
  /\ ~ (forall t, In t (tasks (fst st)) -> t_status t = CANCELLED -> In t (tasks (fst st'))).
Proof.
  intros st st'. vm_compute. split; [reflexivity | split; [reflexivity |]].
  intros H. specialize (H _ (or_introl eq_refl) eq_refl).
  destruct H as [H | []]. discriminate H.
Qed.

(** C3 (amended). [retryFailed] is [startBatch]: it rebuilds the crop batch
    of the given images (a completed crop task is kept as it is; any other
    crop task of the image, failed, cancelled or pending, is reset to
    pending under its id; an image without one gets a fresh pending task),
    the rebuilt list holds only these tasks, and [executeBatch] then runs
    its pending tasks. *)
Theorem retryFailed_rebuilds_crop_batch :
  forall env h runs images cropParams outputSettings,
    let (newTasks, h1) := build_crop_tasks (tasks h) cropParams outputSettings images h in
    step env (h, runs) (EvRetryFailed images cropParams outputSettings)
      = step env (h, runs) (EvStartBatch images cropParams outputSettings)
    /\ step env (h, runs) (EvRetryFailed images cropParams outputSettings)
      = executeBatch (h1, runs) newTasks images
    /\ Forall2 (crop_rebuilt (tasks h) cropParams outputSettings (next_id h)) images newTasks.
Proof.
  intros env h runs images cropParams outputSettings.
  pose proof (build_crop_tasks_spec (tasks h) cropParams outputSettings images h (next_id h)
                (Nat.le_refl _)) as Hs.
  destruct (build_crop_tasks (tasks h) cropParams outputSettings images h)
    as [newTasks h1] eqn:B.
  simpl in Hs. split; [reflexivity | split; [| exact Hs]].
  simpl. unfold retryFailed, startBatch. rewrite B. reflexivity.
Qed.

(** C4 (evaluation at the failing input). A resize batch of image 1
    with scale factor 1.5 is run to completion from an empty hook; calling
    [startResizeBatch] again with the same arguments drops the completed
    task 100 and starts processing a new task 101. A crop batch of image 1
    run to completion and started again with [startBatch] keeps its
    completed task as it is. *)
Theorem startResizeBatch_reprocesses_completed :
  let st_r := run_events FiveTasks.env (FiveTasks.idle, [])
                [EvStartResizeBatch [Rebatch.image1] Rebatch.rs Rebatch.os;
                 EvResolve 0; EvResolve 0; EvResolve 0; EvResolve 0] in
  let st_c := run_events FiveTasks.env (FiveTasks.idle, [])
                [EvStartBatch [Rebatch.image1] Rebatch.cp Rebatch.os;
                 EvResolve 0; EvResolve 0; EvResolve 0; EvResolve 0] in
  let st_r' :=
    step FiveTasks.env st_r (EvStartResizeBatch [Rebatch.image1] Rebatch.rs Rebatch.os) in
  let st_c' :=
    step FiveTasks.env st_c (EvStartBatch [Rebatch.image1] Rebatch.cp Rebatch.os) in
  map (fun t => (t_id t, t_processType t, t_status t)) (tasks (fst st_r))
    = [(100%nat, PTResize, COMPLETED)]
  /\ isProcessing (fst st_r) = false
  /\ map (fun t => (t_id t, t_processType t, t_status t)) (tasks (fst st_r'))
    = [(101%nat, PTResize, PROCESSING)]
  /\ map (fun t => (t_id t, t_processType t, t_status t)) (tasks (fst st_c))
    = [(100%nat, PTCrop, COMPLETED)]
  /\ isProcessing (fst st_c) = false
  /\ tasks (fst st_c') = tasks (fst st_c).
Proof.
  intros st_r st_c st_r' st_c'. vm_compute.
  repeat split; reflexivity.
Qed.

(** ** Cancellation: a single run and its token *)














Lemma tasks_updateTask : forall tid u h,
  tasks (updateTask tid u h) =
  map (fun x => if Nat.eqb (t_id x) tid then apply_update u x else x) (tasks h).
Proof. reflexivity. Qed.

Lemma tasks_fail_task : forall h t img msg,
  tasks (fail_task h t img msg) = tasks (updateTask (t_id t) (SetFailed msg) h).
Proof. reflexivity. Qed.

















(** ** One run at a time *)

Lemma build_crop_tasks_hook : forall old cp os ims h,
  tasks (snd (build_crop_tasks old cp os ims h)) = tasks h
  /\ isProcessing (snd (build_crop_tasks old cp os ims h)) = isProcessing h.
Proof.
  intros old cp os ims. induction ims as [| image ims IH]; intros h; simpl; [auto |].
  destruct (find_crop_task old image) as [e |].
  - destruct (status_eqb (t_status e) COMPLETED);
      destruct (build_crop_tasks old cp os ims h) as [rest h2] eqn:E;
      specialize (IH h); rewrite E in IH; exact IH.
  - specialize (IH (snd (generateId h))). simpl in IH |- *.
    destruct (build_crop_tasks old cp os ims _) as [rest h2]. exact IH.
Qed.

Lemma build_resize_tasks_hook : forall rs os ims h,
  tasks (snd (build_resize_tasks rs os ims h)) = tasks h
  /\ isProcessing (snd (build_resize_tasks rs os ims h)) = isProcessing h.
Proof.
  intros rs os ims. induction ims as [| image ims IH]; intros h; simpl; [auto |].
  specialize (IH (snd (generateId h))). simpl in IH |- *.
  destruct (build_resize_tasks rs os ims _) as [rest h2]. exact IH.
Qed.

(** The guard [if (isProcessing) return;] of [executeBatch]: a batch
    started while the flag is up changes neither the task list nor the
    flag, and starts no run. *)
Lemma start_while_processing_noop : forall env st e,
  is_start e = true -> isProcessing (fst st) = true ->
  tasks (fst (step env st e)) = tasks (fst st)
  /\ isProcessing (fst (step env st e)) = true
  /\ snd (step env st e) = snd st.
Proof.
  intros env [h runs] e He Hp. simpl in Hp.
  destruct e; try discriminate; simpl; unfold retryFailed, startBatch, startResizeBatch.
  - pose proof (build_crop_tasks_hook (tasks h) cropParams outputSettings images h) as [Ht Hq].
    destruct (build_crop_tasks (tasks h) cropParams outputSettings images h) as [nts h1].
    simpl in Ht, Hq. unfold executeBatch. rewrite Hq, Hp. simpl.
    rewrite Hq. auto.
  - pose proof (build_resize_tasks_hook resizeSettings outputSettings images h) as [Ht Hq].
    destruct (build_resize_tasks resizeSettings outputSettings images h) as [nts h1].
    simpl in Ht, Hq. unfold executeBatch. rewrite Hq, Hp. simpl.
    rewrite Hq. auto.
  - pose proof (build_crop_tasks_hook (tasks h) cropParams outputSettings images h) as [Ht Hq].
    destruct (build_crop_tasks (tasks h) cropParams outputSettings images h) as [nts h1].
    simpl in Ht, Hq. unfold executeBatch. rewrite Hq, Hp. simpl.
    rewrite Hq. auto.
Qed.

(** C10. Against the claim: two runs of [executeBatch] can be active at
    once. [pauseBatch] lowers [isProcessing] while the paused run is still
    awaiting its decode, so a second [startBatch] passes the guard and
    starts a second run under a fresh controller. The paused run then
    finds its task cancelled, goes on with the loop (it reads
    [processingRef] and the new controller through the shared refs) and
    processes task 101, while the second run processes task 100, whose
    entry the first run has just marked [cancelled]. *)
Theorem executeBatch_guard_two_runs :
  let ims := [FiveTasks.image 1; FiveTasks.image 2] in
  let e := EvStartBatch ims FiveTasks.cropParams FiveTasks.outputSettings in
  let st := run_events FiveTasks.env (FiveTasks.idle, [])
              [e; EvPause; e; EvResolve 0; EvResolve 0] in
  isProcessing (fst st) = true
  /\ map (fun r => option_map (fun p => (t_id (fst p), snd p)) (in_flight (run_phase r)))
       (snd st) = [Some (101%nat, 1%nat); Some (100%nat, 1%nat)]
  /\ map (fun t => (t_id t, t_status t)) (tasks (fst st))
       = [(100%nat, CANCELLED); (101%nat, PROCESSING)].
Proof. vm_compute. split; [reflexivity | split; reflexivity]. Qed.

(** ** The crop canvas *)

Section Crop_canvas.

Local Open Scope Q_scope.

Lemma rounded_path_id : forall c w h rad,
  c_ctm c = mat_id ->
  path_eqv (c_path (createRoundedRectPath c 0 0 w h rad))
    (rounded_rect w h (Qmin (Qmin rad (w / 2)) (h / 2))).
Proof.
  intros [cw ch px m cl st p] w h rad H. simpl in H. subst m.
  cbv beta iota zeta delta [createRoundedRectPath with_path beginPath moveTo lineTo
    quadraticCurveTo closePath c_path app].
  set (r := Qmin (Qmin rad (w / 2)) (h / 2)).
  unfold path_eqv, rounded_rect.
  repeat apply Forall2_cons; try apply Forall2_nil;
    cbn [cmd_eqv]; unfold pt_eqv, apply_mat, mat_id; cbn [fst snd ma mb mc md me mf];
    repeat match goal with |- _ /\ _ => split end; try exact I; ring.
Qed.

Lemma crop_setup_shape : forall cos sin inside c0 cp,
  exists px m, crop_setup cos sin inside c0 cp
    = mkCtx (canvas_dim (cp_width cp) 300) (canvas_dim (cp_height cp) 150) px m []
        [(mat_id, [])] []
    /\ forall i j, px i j = None.
Proof.
  intros. unfold crop_setup. cbv zeta.
  destruct (negb (Qeq_bool (rotation_of cp) 0)); do 2 eexists; split; try reflexivity;
    intros i j; cbn [with_px clearRect c_px set_canvas_height set_canvas_width];
    match goal with |- context [match ?x with Some _ => _ | None => _ end] => destruct x end;
    reflexivity.
Qed.

Lemma crop_clip_px : forall cos sin c cp, c_px (crop_clip cos sin c cp) = c_px c.
Proof.
  intros cos sin [w h px m cl st p] cp. unfold crop_clip. cbv zeta.
  destruct (Qlt_bool 0 (borderRadius_of cp)); [| reflexivity].
  destruct st as [| [m' cl'] st]; destruct (negb (Qeq_bool (rotation_of cp) 0)); reflexivity.
Qed.

Lemma restore_px : forall c, c_px (restore c) = c_px c.
Proof. intros [w h px m cl [| [m' cl'] st] p]; reflexivity. Qed.

Lemma cropImage_canvas : forall cos sin inside encodable c0 img cp os,
  fst (cropImage cos sin inside encodable c0 img cp os)
  = crop_draw inside (crop_clip cos sin (crop_setup cos sin inside c0 cp) cp) img cp.
Proof.
  intros. unfold cropImage. cbv zeta.
  destruct os as [[rt |] |]; try reflexivity.
  destruct (rt_enabled rt); [| reflexivity].
  destruct (_ || _)%bool; [reflexivity |].
  destruct (_ || _)%bool; reflexivity.
Qed.

Lemma drawImage_outside_clip : forall inside c img sx sy sw sh dx dy dw dh i j,
  in_clip inside c (pixel_centre i j) = false ->
  c_px (drawImage inside c img sx sy sw sh dx dy dw dh) i j = c_px c i j.
Proof.
  intros inside c img sx sy sw sh dx dy dw dh i j H. unfold drawImage, painted_point.
  destruct c as [w h px m cl st p]. cbn [with_px c_px].
  rewrite H, andb_false_r. reflexivity.
Qed.

(** C7. When [borderRadius > 0], [cropImage] establishes, after
    [restore] and [save], a clip region that is exactly one path: the
    rounded rectangle over the output box [(0, 0, width, height)] whose
    corner radius is [min(width, height) * borderRadius / 2] clamped to
    [min(radius, width / 2, height / 2)] (up to equal coordinates). After
    the clip, the transform equals the one built before it: the move to
    the centre, the rotation and the flip. Every pixel whose centre lies
    outside the clip region stays transparent in the processor's canvas. *)
Theorem cropImage_rounded_clip : forall cos sin inside encodable c0 img cp outputSettings,
  (0 < borderRadius_of cp)%Q ->
  let c1 := crop_setup cos sin inside c0 cp in
  let c2 := crop_clip cos sin c1 cp in
  let w := inject_Z (cp_width cp) in
  let h := inject_Z (cp_height cp) in
  let r := Qmin (Qmin (inject_Z (Z.min (cp_width cp) (cp_height cp)) * borderRadius_of cp / 2)
                      (w / 2)) (h / 2) in
  c_ctm c2 = c_ctm c1
  /\ (exists p, c_clip c2 = [p] /\ path_eqv p (rounded_rect w h r))
  /\ (forall i j, in_clip inside c2 (pixel_centre i j) = false ->
        c_px (fst (cropImage cos sin inside encodable c0 img cp outputSettings)) i j = None).
Proof.
  intros cos sin inside encodable c0 img cp os Hb c1 c2 w h r.
  assert (Hb' : Qlt_bool 0 (borderRadius_of cp) = true).
  { unfold Qlt_bool. apply negb_true_iff. apply not_true_is_false. intros H.
    apply Qle_bool_iff in H. apply (Qlt_not_le _ _ Hb H). }
  split; [| split].
  - unfold c2, c1, crop_clip, crop_setup. cbv zeta. rewrite Hb'.
    destruct (negb (Qeq_bool (rotation_of cp) 0)); reflexivity.
  - destruct (crop_setup_shape cos sin inside c0 cp) as [px [m [E _]]].
    exists (c_path (createRoundedRectPath
                     (mkCtx (canvas_dim (cp_width cp) 300) (canvas_dim (cp_height cp) 150)
                        px mat_id [] [] []) 0 0 w h
                     (inject_Z (Z.min (cp_width cp) (cp_height cp)) * borderRadius_of cp / 2))).
    split.
    + unfold c2, c1. rewrite E. unfold crop_clip. cbv zeta. rewrite Hb'.
      destruct (negb (Qeq_bool (rotation_of cp) 0)); reflexivity.
    + apply rounded_path_id. reflexivity.
  - intros i j Hi. rewrite cropImage_canvas. unfold crop_draw. cbv zeta.
    rewrite restore_px, drawImage_outside_clip by exact Hi.
    rewrite crop_clip_px. destruct (crop_setup_shape cos sin inside c0 cp) as [px [m [E Hp]]].
    rewrite E. apply Hp.
Qed.

Lemma Qfloor_half : forall k : Z, Qfloor (inject_Z k + (1 # 2)) = k.
Proof.
  intros k. unfold Qfloor, Qplus, inject_Z. simpl.
  rewrite Z.div_add_l by lia. simpl. apply Z.add_0_r.
Qed.

Lemma inverse_translation : forall m p,
  ma m == 1 -> mb m == 0 -> mc m == 0 -> md m == 1 ->
  exists q, mat_inverse_apply m p = Some q
            /\ fst q == fst p - me m /\ snd q == snd p - mf m.
Proof.
  intros m p Ha Hb Hc Hd. unfold mat_inverse_apply.
  assert (Hdet : ma m * md m - mb m * mc m == 1) by (rewrite Ha, Hb, Hc, Hd; ring).
  destruct (Qeq_bool (ma m * md m - mb m * mc m) 0) eqn:E.
  - apply Qeq_bool_iff in E. rewrite Hdet in E. discriminate.
  - eexists. split; [reflexivity |]. simpl. rewrite Hdet, Ha, Hb, Hc, Hd. split; field.
Qed.

Lemma Qlt_bool_true : forall a b, a < b -> Qlt_bool a b = true.
Proof.
  intros a b H. unfold Qlt_bool. apply negb_true_iff, not_true_is_false. intros H'.
  apply Qle_bool_iff in H'. apply (Qlt_not_le _ _ H H').
Qed.

Lemma canvas_dim_in : forall v d, (0 < v <= 2147483647)%Z -> canvas_dim v d = v.
Proof.
  intros v d H. unfold canvas_dim.
  destruct (Z.leb_spec 0 v) as [H1 | H1]; [| lia].
  destruct (Z.leb_spec v 2147483647) as [H2 | H2]; [reflexivity | lia].
Qed.

Lemma crop_setup_plain_ctm : forall cos sin inside c0 cp,
  Qeq_bool (rotation_of cp) 0 = true -> flipH_of cp = false -> flipV_of cp = false ->
  let m := c_ctm (crop_setup cos sin inside c0 cp) in
  ma m == 1 /\ mb m == 0 /\ mc m == 0 /\ md m == 1
  /\ me m == inject_Z (cp_width cp) / 2 /\ mf m == inject_Z (cp_height cp) / 2.
Proof.
  intros cos sin inside c0 cp Hr Hh Hv m. unfold m, crop_setup. cbv zeta.
  rewrite Hr, Hh, Hv. cbn [negb c_ctm scale translate save clearRect with_px
    set_canvas_height set_canvas_width mat_id ma mb mc md me mf].
  repeat match goal with |- _ /\ _ => split end; ring.
Qed.

(** C8 (amended). With no rotation, no flips, a zero border radius and
    no enabled resize target, take a crop of a size the canvas accepts
    ([1 .. 2^31 - 1]). If the user agent can encode a bitmap of that
    size, the crop settles with a surface of exactly [width] by [height]
    pixels, whose pixel [(i, j)] is the source pixel [(x + i, y + j)]
    wherever that one lies in the source. Otherwise [canvas.toBlob]
    yields [null] and the crop rejects with the processing error: it
    never settles with a surface of another size. *)
Theorem cropImage_plain_output : forall cos sin inside encodable c0 img cp outputSettings,
  Qeq_bool (rotation_of cp) 0 = true -> flipH_of cp = false -> flipV_of cp = false ->
  borderRadius_of cp == 0 ->
  (forall rt, outputSettings = Some (Some rt) -> rt_enabled rt = false) ->
  (0 < cp_width cp <= 2147483647)%Z -> (0 < cp_height cp <= 2147483647)%Z ->
  (encodable (cp_width cp) (cp_height cp) = true ->
   exists s, snd (cropImage cos sin inside encodable c0 img cp outputSettings)
               = ROk (BlobSurface s)
    /\ s_width s = cp_width cp /\ s_height s = cp_height cp
    /\ (forall i j, (0 <= i < cp_width cp)%Z -> (0 <= j < cp_height cp)%Z ->
          (0 <= cp_x cp + i < s_width img)%Z -> (0 <= cp_y cp + j < s_height img)%Z ->
          s_px s i j = s_px img (cp_x cp + i) (cp_y cp + j)))
  /\ (encodable (cp_width cp) (cp_height cp) = false ->
      snd (cropImage cos sin inside encodable c0 img cp outputSettings) = RErr CROP_FAILED).
Proof.
  intros cos sin inside encodable c0 img cp os Hr Hh Hv Hb Hos Hw Hh'.
  pose proof (crop_setup_plain_ctm cos sin inside c0 cp Hr Hh Hv) as Hm.
  destruct (crop_setup_shape cos sin inside c0 cp) as [px [m [E Hp]]].
  rewrite E in Hm. cbn [c_ctm] in Hm. destruct Hm as [Ha [Hb' [Hc [Hd [He Hf]]]]].
  rewrite !canvas_dim_in in E by assumption.
  set (W := inject_Z (cp_width cp)) in *. set (H := inject_Z (cp_height cp)) in *.
  set (c1 := mkCtx (cp_width cp) (cp_height cp) px m [] [(mat_id, [])] []) in E.
  assert (Hcl : crop_clip cos sin c1 cp = c1).
  { unfold crop_clip. cbv zeta.
    replace (Qlt_bool 0 (borderRadius_of cp)) with false; [reflexivity |].
    symmetry. unfold Qlt_bool. apply negb_false_iff, Qle_bool_iff. rewrite Hb. apply Qle_refl. }
  set (c := crop_draw inside c1 img cp).
  assert (Hfst : fst (cropImage cos sin inside encodable c0 img cp os) = c).
  { rewrite cropImage_canvas, E, Hcl. reflexivity. }
  assert (Hcw : c_width c = cp_width cp /\ c_height c = cp_height cp) by (split; reflexivity).
  assert (Hsnd : snd (cropImage cos sin inside encodable c0 img cp os)
                 = toBlob encodable c CROP_FAILED).
  { rewrite <- Hfst. unfold cropImage. cbv zeta.
    destruct os as [[rt |] |]; try reflexivity.
    rewrite (Hos rt eq_refl). reflexivity. }
  split; intros Henc.
  2:{ rewrite Hsnd. unfold toBlob. destruct Hcw as [-> ->]. rewrite Henc, orb_true_r.
      reflexivity. }
  exists (canvas_surface c). split; [| split; [apply Hcw | split; [apply Hcw |]]].
  - rewrite Hsnd. unfold toBlob. destruct Hcw as [-> ->]. rewrite Henc.
    replace ((cp_width cp =? 0)%Z || (cp_height cp =? 0)%Z) with false; [reflexivity |].
    symmetry. apply orb_false_iff. split; apply Z.eqb_neq; lia.
  - intros i j Hi Hj Hx Hy. cbn [canvas_surface s_px].
    unfold c, crop_draw. cbv zeta. rewrite restore_px.
    unfold drawImage, with_px, c1. cbn [c_px]. fold c1.
    destruct (inverse_translation m (pixel_centre i j) Ha Hb' Hc Hd) as [q [Eq [Hqx Hqy]]].
    assert (Hpt : painted_point inside c1 (- W / 2) (- H / 2) W H i j = Some q).
    { unfold painted_point.
      replace (in_bitmap c1 i j) with true.
      2:{ symmetry. unfold in_bitmap. cbn [c_width c_height c1].
          repeat rewrite andb_true_iff. repeat split;
            first [apply Z.leb_le | apply Z.ltb_lt]; lia. }
      change (in_clip inside c1 (pixel_centre i j)) with true.
      change (c_ctm c1) with m. rewrite Eq. cbn [andb].
      replace (in_rect (- W / 2) (- H / 2) W H q) with true; [reflexivity |].
      symmetry. unfold in_rect. rewrite He in Hqx. rewrite Hf in Hqy.
      cbn [pixel_centre fst snd] in Hqx, Hqy.
      assert (Fi : 0 <= inject_Z i /\ inject_Z i + 1 <= W).
      { split; [change 0 with (inject_Z 0) |
                change (inject_Z i + 1) with (inject_Z i + inject_Z 1);
                unfold W; rewrite <- inject_Z_plus]; rewrite <- Zle_Qle; lia. }
      assert (Fj : 0 <= inject_Z j /\ inject_Z j + 1 <= H).
      { split; [change 0 with (inject_Z 0) |
                change (inject_Z j + 1) with (inject_Z j + inject_Z 1);
                unfold H; rewrite <- inject_Z_plus]; rewrite <- Zle_Qle; lia. }
      repeat rewrite andb_true_iff. repeat split.
      - apply Qle_bool_iff. rewrite Hqx. unfold Qdiv in *. change (Qinv 2) with (1 # 2). lra.
      - apply Qlt_bool_true. rewrite Hqx. unfold Qdiv in *. change (Qinv 2) with (1 # 2). lra.
      - apply Qle_bool_iff. rewrite Hqy. unfold Qdiv in *. change (Qinv 2) with (1 # 2). lra.
      - apply Qlt_bool_true. rewrite Hqy. unfold Qdiv in *. change (Qinv 2) with (1 # 2). lra. }
    fold W H. rewrite Hpt. cbv beta iota zeta.
    assert (Hu : Qfloor (inject_Z (cp_x cp) + (fst q - - W / 2) * (W / W)) = (cp_x cp + i)%Z).
    { rewrite <- (Qfloor_half (cp_x cp + i)). apply Qfloor_comp.
      rewrite Hqx, He. cbn [pixel_centre fst]. rewrite inject_Z_plus. field.
      intros E0. assert (Hw0 : 0 < W)
        by (unfold W; change 0 with (inject_Z 0); rewrite <- Zlt_Qlt; lia).
      rewrite E0 in Hw0. exact (Qlt_irrefl 0 Hw0). }
    assert (Hv0 : Qfloor (inject_Z (cp_y cp) + (snd q - - H / 2) * (H / H)) = (cp_y cp + j)%Z).
    { rewrite <- (Qfloor_half (cp_y cp + j)). apply Qfloor_comp.
      rewrite Hqy, Hf. cbn [pixel_centre snd]. rewrite inject_Z_plus. field.
      intros E0. assert (Hh0 : 0 < H)
        by (unfold H; change 0 with (inject_Z 0); rewrite <- Zlt_Qlt; lia).
      rewrite E0 in Hh0. exact (Qlt_irrefl 0 Hh0). }
    rewrite Hu, Hv0.
    replace ((0 <=? cp_x cp + i)%Z && (cp_x cp + i <? s_width img)%Z
             && (0 <=? cp_y cp + j)%Z && (cp_y cp + j <? s_height img)%Z) with true.
    2:{ symmetry. repeat rewrite andb_true_iff. repeat split;
          first [apply Z.leb_le | apply Z.ltb_lt]; lia. }
    destruct (s_px img (cp_x cp + i) (cp_y cp + j)); [reflexivity | apply Hp].
Qed.
(** C8, against the unconditional claim: when the user agent cannot
    encode a canvas of the crop size, [canvas.toBlob] yields [null] and
    the crop rejects. Under a Chromium-like canvas limit, a plain
    40000 x 40000 crop fails with the processing error. *)
Lemma cropImage_plain_too_large :
  let cp := mkCropParams 40000 40000 0 0 None None None None in
  CanvasDemo.chromium_limit (cp_width cp) (cp_height cp) = false
  /\ snd (cropImage CanvasDemo.trig CanvasDemo.trig CanvasDemo.inside_all
         CanvasDemo.chromium_limit CanvasDemo.blank CanvasDemo.src cp None) = RErr CROP_FAILED.
Proof. split; reflexivity. Qed.


End Crop_canvas.

Section Rotated_size_proofs.
Local Open Scope Q_scope.

Lemma Qle_bool_comp a a' b b' :
  a == a' -> b == b' -> Qle_bool a b = Qle_bool a' b'.
Proof.
  intros Ha Hb.
  destruct (Qle_bool a b) eqn:E1, (Qle_bool a' b') eqn:E2; auto.
  - apply Qle_bool_iff in E1. rewrite Ha, Hb in E1.
    apply Qle_bool_iff in E1. congruence.
  - apply Qle_bool_iff in E2. rewrite <- Ha, <- Hb in E2.
    apply Qle_bool_iff in E2. congruence.
Qed.

Lemma Qlt_bool_comp a a' b b' :
  a == a' -> b == b' -> Qlt_bool a b = Qlt_bool a' b'.
Proof.
  intros Ha Hb. unfold Qlt_bool. now rewrite (Qle_bool_comp b b' a a').
Qed.

Lemma Qlt_bool_false a b : b <= a -> Qlt_bool a b = false.
Proof.
  intros H. unfold Qlt_bool. apply Qle_bool_iff in H. now rewrite H.
Qed.

Lemma round_even_comp p q : p == q -> round_even p = round_even q.
Proof.
  intros H. unfold round_even.
  rewrite (Qfloor_comp p q H).
  rewrite (Qlt_bool_comp (p - inject_Z (Qfloor q)) (q - inject_Z (Qfloor q))
             (1 # 2) (1 # 2)) by (try rewrite H; reflexivity).
  rewrite (Qlt_bool_comp (1 # 2) (1 # 2) (p - inject_Z (Qfloor q))
             (q - inject_Z (Qfloor q))) by (try rewrite H; reflexivity).
  reflexivity.
Qed.

Lemma round_even_Z z : round_even (inject_Z z) = z.
Proof.
  unfold round_even. rewrite Qfloor_Z.
  rewrite (Qlt_bool_comp (inject_Z z - inject_Z z) 0 (1 # 2) (1 # 2))
    by (ring || reflexivity).
  reflexivity.
Qed.

Lemma fl_comp x y : x == y -> fl x = fl y.
Proof. intros H. unfold fl. now rewrite (Qred_complete x y H). Qed.

Lemma Qred_inject_Z n : Qred (inject_Z n) = inject_Z n.
Proof.
  unfold Qred, inject_Z.
  pose proof (Z.ggcd_gcd n 1) as Hg. pose proof (Z.ggcd_correct_divisors n 1) as Hd.
  destruct (Z.ggcd n 1) as [g [a b]].
  rewrite Z.gcd_1_r in Hg. simpl in Hg, Hd. subst g.
  destruct Hd as [Ha Hb]. rewrite Z.mul_1_l in Ha, Hb. now subst.
Qed.

Lemma pow2_nonpos e : (e <= 0)%Z -> pow2 e * inject_Z (2 ^ (- e)) == 1.
Proof.
  intros He. unfold pow2.
  destruct (Z.leb_spec 0 e).
  - assert (e = 0)%Z by lia. subst. reflexivity.
  - assert (Hp : (0 < 2 ^ (- e))%Z) by (apply Z.pow_pos_nonneg; lia).
    unfold Qeq, Qmult, inject_Z. simpl Qnum. simpl Qden. rewrite Pos2Z.inj_mul, Z2Pos.id by lia. destruct (2 ^ (- e))%Z; simpl; lia.
Qed.

(** Integers of magnitude at most [2 ^ 53] are doubles. *)
Lemma fl_inject_Z n : (0 <= n <= 2 ^ 53)%Z -> fl (inject_Z n) == inject_Z n.
Proof.
  intros Hn. unfold fl. rewrite Qred_inject_Z.
  destruct n as [| p | p]; [reflexivity | | lia].
  pose proof (Z.log2_spec (Zpos p) ltac:(lia)) as [Hlo Hhi].
  assert (Hk : (Z.log2 (Zpos p) <= 53)%Z).
  { change 53%Z with (Z.log2 (2 ^ 53)). apply Z.log2_le_mono. lia. }
  assert (Hk0 : (0 <= Z.log2 (Zpos p))%Z) by apply Z.log2_nonneg.
  destruct (Z.eq_dec (Z.log2 (Zpos p)) 53) as [E | Hk'].
  - assert (Zpos p = 2 ^ 53)%Z as ->.
    { rewrite E in Hlo. lia. }
    vm_compute. reflexivity.
  - change (inject_Z (Zpos p)) with (Zpos p # 1) at 1. lazy beta iota.
    unfold fl_pos. change (Z.log2 (Zpos 1)) with 0%Z.
    set (k := Z.log2 (Zpos p)) in *.
    set (e0 := (k - 0 - 52)%Z).
    set (m := (Zpos p * 2 ^ (52 - k))%Z).
    assert (He0 : (e0 <= 0)%Z) by (unfold e0; lia).
    assert (Hm : (Zpos p # 1) / pow2 e0 == inject_Z m).
    { pose proof (pow2_nonpos e0 He0) as P.
      assert (Hne : ~ pow2 e0 == 0).
      { intros Z0. rewrite Z0 in P. discriminate P. }
      unfold m. replace (52 - k)%Z with (- e0)%Z by (unfold e0; lia).
      rewrite inject_Z_mult. change (Zpos p # 1) with (inject_Z (Zpos p)).
      assert (Hx : inject_Z (2 ^ (- e0)) == / pow2 e0).
      { rewrite <- (Qmult_1_l (/ pow2 e0)), <- P. field. exact Hne. }
      unfold Qdiv. rewrite Hx. reflexivity. }
    assert (Hm52 : (2 ^ 52 <= m)%Z).
    { unfold m. replace (2 ^ 52)%Z with (2 ^ k * 2 ^ (52 - k))%Z
        by (rewrite <- Z.pow_add_r by lia; f_equal; lia).
      apply Z.mul_le_mono_nonneg_r; [apply Z.pow_nonneg | ]; lia. }
    rewrite (Qlt_bool_comp _ _ _ (inject_Z (2 ^ 52)) Hm) by reflexivity.
    rewrite Qlt_bool_false by (rewrite <- Zle_Qle; exact Hm52).
    rewrite (round_even_comp _ _ Hm), round_even_Z.
    pose proof (pow2_nonpos e0 He0) as P.
    unfold m. replace (52 - k)%Z with (- e0)%Z by (unfold e0; lia).
    rewrite inject_Z_mult. rewrite <- Qmult_assoc, (Qmult_comm (inject_Z (2 ^ (- e0)))), P.
    change (Zpos p # 1) with (inject_Z (Zpos p)). ring.
Qed.

Lemma radians_0 : fl (fl (0 * Math_PI) / 180) = 0.
Proof. vm_compute. reflexivity. Qed.

(** C9. [calculateRotatedSize] evaluates the formula of the spec in
    double precision. For a rotation of 0 and integer width and height
    up to [2 ^ 53] it returns exactly [(width, height)]: it needs only
    [Math.cos(0) = 1] and [Math.sin(0) = 0], which hold exactly. *)
Theorem calculateRotatedSize_rounding (Math_cos Math_sin : Q -> Q) (width height : Z) :
  Math_cos 0 == 1 -> Math_sin 0 == 0 ->
  (0 <= width <= 2 ^ 53)%Z -> (0 <= height <= 2 ^ 53)%Z ->
  calculateRotatedSize Math_cos Math_sin (inject_Z width) (inject_Z height) 0
  = (width, height).
Proof.
  intros Hc Hs Hw Hh. unfold calculateRotatedSize. rewrite radians_0.
  assert (Hc' : Qabs (Math_cos 0) == 1) by (rewrite Hc; reflexivity).
  assert (Hs' : Qabs (Math_sin 0) == 0) by (rewrite Hs; reflexivity).
  assert (E1 : forall n, (0 <= n <= 2 ^ 53)%Z ->
             fl (inject_Z n * Qabs (Math_cos 0)) == inject_Z n).
  { intros n Hn. rewrite (fl_comp _ (inject_Z n)) by (rewrite Hc'; ring).
    now apply fl_inject_Z. }
  assert (E0 : forall n, fl (inject_Z n * Qabs (Math_sin 0)) = 0).
  { intros n. rewrite (fl_comp _ 0) by (rewrite Hs'; ring). reflexivity. }
  rewrite !E0.
  rewrite (fl_comp (fl (inject_Z width * Qabs (Math_cos 0)) + 0) (inject_Z width))
    by (rewrite E1 by exact Hw; ring).
  rewrite (fl_comp (0 + fl (inject_Z height * Qabs (Math_cos 0))) (inject_Z height))
    by (rewrite E1 by exact Hh; ring).
  rewrite (Qceiling_comp _ _ (fl_inject_Z width Hw)), (Qceiling_comp _ _ (fl_inject_Z height Hh)).
  now rewrite !Qceiling_Z.
Qed.

(** [Libm.cos] at the double [90 * Math.PI / 180] is the double
    [6.123233995736766e-17], as [Math.cos(Math.PI / 2)] in JS. *)
Lemma Libm_cos_half_pi :
  Libm.cos (fl (fl (90 * Math_PI) / 180)) = 4967757600021511 # (2 ^ 106)%positive.
Proof. vm_compute. reflexivity. Qed.

(** C9, counterexample. At 90 degrees the double cosine is about
    [6.1e-17], not 0; [200 * 6.1e-17] added to 100 rounds up to the next
    double above 100, and [Math.ceil] turns it into 101. So
    [calculateRotatedSize(100, 200, 90)] is [{ width: 200, height: 101 }],
    not [(height, width) = (200, 100)]. *)
Lemma calculateRotatedSize_90_extra_pixel :
  calculateRotatedSize Libm.cos Libm.sin 100 200 90 = (200%Z, 101%Z).
Proof. vm_compute. reflexivity. Qed.

End Rotated_size_proofs.


(** ** Further properties *)

Section Task_keys.

Lemma apply_update_key : forall u t, task_key (apply_update u t) = task_key t.
Proof. destruct u; reflexivity. Qed.

Lemma updateTask_keys : forall tid u h,
  map task_key (tasks (updateTask tid u h)) = map task_key (tasks h).
Proof.
  intros tid u h. rewrite tasks_updateTask, map_map. apply map_ext. intros x.
  destruct (Nat.eqb (t_id x) tid); [apply apply_update_key | reflexivity].
Qed.

Lemma fail_task_keys : forall h t img msg,
  map task_key (tasks (fail_task h t img msg)) = map task_key (tasks h).
Proof. intros. rewrite tasks_fail_task. apply updateTask_keys. Qed.

Lemma loop_head_keys : forall images h rest,
  map task_key (tasks (fst (loop_head images h rest))) = map task_key (tasks h).
Proof.
  intros images h rest. revert h. induction rest as [| t rest IH]; intros h; simpl; [reflexivity |].
  destruct (negb (processingRef h) || ref_aborted h); [reflexivity |].
  destruct (find _ images) as [img |]; [| apply IH].
  destruct (abortControllerRef h) as [c |]; [| reflexivity].
  unfold process_entry. destruct (is_aborted h c); apply updateTask_keys.
Qed.

Lemma resolve_keys : forall env images h ph,
  map task_key (tasks (fst (resolve env images h ph))) = map task_key (tasks h).
Proof.
  intros env images h ph. unfold resolve.
  destruct ph as [t img c rest | t img c src rest | t img c b rest | rest |].
  - destruct (decode env img) as [src | msg]; [| apply fail_task_keys].
    destruct (is_aborted h c); [apply updateTask_keys |].
    change (is_aborted (updateTask (t_id t) (SetProgress 50)
              (updateTask (t_id t) (SetProgress 25) h)) c) with (is_aborted h c).
    destruct (is_aborted h c); cbn [fst]; rewrite ?updateTask_keys; reflexivity.
  - destruct (engine_run env t img src) as [b | msg]; [| apply fail_task_keys].
    change (is_aborted (updateTask (t_id t) (SetProgress 75) h) c) with (is_aborted h c).
    destruct (is_aborted h c); cbn [fst]; rewrite ?updateTask_keys; reflexivity.
  - destruct (encode env b (t_outputSettings t)); [apply updateTask_keys | apply fail_task_keys].
  - apply loop_head_keys.
  - reflexivity.
Qed.

(** X1. While a batch runs, the settling of the awaited steps and
    [pauseBatch] never add, remove or reorder tasks, and never change a
    task's id, image, type, crop parameters, resize settings or output
    settings: only status, progress, error and result change. *)
Theorem run_keeps_task_keys : forall env st evs,
  Forall (fun e => match e with EvResolve _ | EvPause => True | _ => False end) evs ->
  map task_key (tasks (fst (run_events env st evs))) = map task_key (tasks (fst st)).
Proof.
  intros env st evs. unfold run_events. revert st.
  induction evs as [| e evs IH]; intros [h runs] Hall; [reflexivity |].
  inversion Hall as [| e' evs' He Hrest]; subst. simpl.
  rewrite IH by exact Hrest.
  destruct e; try contradiction; simpl; [reflexivity |].
  destruct (nth_error runs k) as [r |]; [| reflexivity].
  destruct (resolve env (run_images r) h (run_phase r)) as [h' ph'] eqn:E. simpl.
  pose proof (resolve_keys env (run_images r) h (run_phase r)) as K.
  rewrite E in K. exact K.
Qed.

End Task_keys.

Section All_completed.

Lemma build_all_completed : forall old cp os images h,
  (forall image, In image images ->
     exists e, find_crop_task old image = Some e /\ t_status e = COMPLETED) ->
  Forall2 (fun image e => find_crop_task old image = Some e)
    images (fst (build_crop_tasks old cp os images h))
  /\ Forall (fun e => t_status e = COMPLETED) (fst (build_crop_tasks old cp os images h))
  /\ snd (build_crop_tasks old cp os images h) = h.
Proof.
  intros old cp os images h. induction images as [| image ims IH]; intros Hall; simpl.
  - auto.
  - destruct (Hall image (or_introl eq_refl)) as [e [Hf Hs]].
    rewrite Hf, Hs. simpl.
    destruct IH as [IH1 [IH2 IH3]]; [intros i Hi; apply Hall; now right |].
    destruct (build_crop_tasks old cp os ims h) as [rest h2]. simpl in *.
    subst h2. auto.
Qed.

Lemma filter_none_pending : forall l,
  Forall (fun e => t_status e = COMPLETED) l ->
  filter (fun t => status_eqb (t_status t) PENDING || status_eqb (t_status t) FAILED) l = [].
Proof.
  intros l H. induction H as [| x l Hx _ IH]; simpl; [reflexivity |].
  rewrite Hx, IH. reflexivity.
Qed.

(** X2. When no batch is running and every image of the call already has
    a completed crop task, [startBatch] processes nothing: the task list
    becomes those completed tasks, in the order of the images, no id is
    generated, no error is reported, the flags are cleared at once and
    the new run has already ended. With no images at all, the task list
    becomes empty. *)
Theorem startBatch_all_completed : forall h runs images cp os,
  isProcessing h = false ->
  (forall image, In image images ->
     exists e, find_crop_task (tasks h) image = Some e /\ t_status e = COMPLETED) ->
  let st' := startBatch (h, runs) images cp os in
  Forall2 (fun image e => find_crop_task (tasks h) image = Some e) images (tasks (fst st'))
  /\ Forall (fun e => t_status e = COMPLETED) (tasks (fst st'))
  /\ isProcessing (fst st') = false
  /\ processingRef (fst st') = false
  /\ next_id (fst st') = next_id h
  /\ errors (fst st') = errors h
  /\ snd st' = runs ++ [mkRun images Done].
Proof.
  intros h runs images cp os Hp Hall st'. subst st'.
  destruct (build_all_completed (tasks h) cp os images h Hall) as [H1 [H2 H3]].
  unfold startBatch.
  destruct (build_crop_tasks (tasks h) cp os images h) as [nts h1]. simpl in *. subst h1.
  unfold executeBatch. rewrite Hp. rewrite (filter_none_pending nts H2). simpl.
  repeat split; auto.
Qed.

End All_completed.

Section Browser_engine.

Lemma crop_clip_dims : forall cos sin c cp,
  c_width (crop_clip cos sin c cp) = c_width c /\ c_height (crop_clip cos sin c cp) = c_height c.
Proof.
  intros cos sin [w h px m cl st p] cp. unfold crop_clip. cbv zeta.
  destruct (Qlt_bool 0 (borderRadius_of cp)); [| auto].
  destruct st as [| [m' cl'] st]; destruct (negb (Qeq_bool (rotation_of cp) 0)); auto.
Qed.

Lemma crop_draw_dims : forall inside c img cp,
  c_width (crop_draw inside c img cp) = c_width c
  /\ c_height (crop_draw inside c img cp) = c_height c.
Proof.
  intros inside [w h px m cl st p] img cp. unfold crop_draw, drawImage, restore.
  cbn [with_px]. destruct st as [| [m' cl'] st]; auto.
Qed.

Lemma cropImage_dims : forall cos sin inside encodable c0 img cp os,
  c_width (fst (cropImage cos sin inside encodable c0 img cp os)) = canvas_dim (cp_width cp) 300
  /\ c_height (fst (cropImage cos sin inside encodable c0 img cp os))
     = canvas_dim (cp_height cp) 150.
Proof.
  intros. rewrite cropImage_canvas.
  destruct (crop_setup_shape cos sin inside c0 cp) as [px [m [E _]]].
  destruct (crop_draw_dims inside (crop_clip cos sin (crop_setup cos sin inside c0 cp) cp) img cp)
    as [D1 D2].
  destruct (crop_clip_dims cos sin (crop_setup cos sin inside c0 cp) cp) as [C1 C2].
  rewrite D1, D2, C1, C2, E. auto.
Qed.

(** X3. In the browser, the crop step of [processImage] never applies
    the image's saved [resizeTarget]: [cropImage] receives that object as
    its [outputSettings] argument, where it looks for a [resizeTarget]
    field the object does not have. So for every image, also one whose
    resize target is enabled with another size, a crop of width and
    height between 1 and [2 ^ 31 - 1] yields a bitmap of exactly the crop
    size when the user agent can encode it, and fails with the
    processing error otherwise; it never yields a resampled bitmap. *)
Theorem processImage_crop_ignores_resizeTarget :
  forall cos sin inside encodable dec enc t img src cp,
  t_processType t = PTCrop -> t_cropParams t = Some cp ->
  (0 < cp_width cp <= 2147483647)%Z -> (0 < cp_height cp <= 2147483647)%Z ->
  let env := browser_env cos sin inside encodable dec enc in
  (encodable (cp_width cp) (cp_height cp) = true ->
   exists s, engine_run env t img src = ROk (BlobSurface s)
             /\ s_width s = cp_width cp /\ s_height s = cp_height cp)
  /\ (encodable (cp_width cp) (cp_height cp) = false ->
      engine_run env t img src = RErr CROP_FAILED).
Proof.
  intros cos sin inside encodable dec enc t img src cp Ht Hcp Hw Hh env. subst env.
  unfold engine_run. rewrite Ht, Hcp. cbn [crop_engine browser_env]. unfold processor_crop.
  destruct (cropImage_dims cos sin inside encodable fresh_canvas src cp (Some None)) as [D1 D2].
  rewrite (canvas_dim_in _ _ Hw) in D1. rewrite (canvas_dim_in _ _ Hh) in D2.
  unfold cropImage in *. cbv zeta in *. cbn [fst] in D1, D2. unfold toBlob.
  rewrite D1, D2.
  destruct (Z.eqb_spec (cp_width cp) 0); [lia |].
  destruct (Z.eqb_spec (cp_height cp) 0); [lia |]. cbn [orb].
  split; intros Henc; rewrite Henc; cbn [negb].
  - eexists; split; [reflexivity |]. cbn [s_width s_height canvas_surface]. auto.
  - reflexivity.
Qed.

End Browser_engine.

Section Rotated_size_symmetry.

Local Open Scope Q_scope.

Lemma Qopp_Qopp_eq : forall q : Q, - - q = q.
Proof. intros [n d]. unfold Qopp. cbn [Qnum Qden]. now rewrite Z.opp_involutive. Qed.

Lemma fl_opp : forall x, fl (- x) = - fl x.
Proof.
  intros x. unfold fl. rewrite Qred_opp.
  destruct (Qred x) as [[| p | p] d]; cbn [Qopp Qnum Qden Z.opp].
  - reflexivity.
  - reflexivity.
  - now rewrite Qopp_Qopp_eq.
Qed.

(** X4. [calculateRotatedSize] with width and height exchanged returns
    the two sides exchanged, for every angle, with every rounding of the
    double-precision operations exactly as the code performs them. *)
Theorem calculateRotatedSize_swap : forall Math_cos Math_sin width height rotation,
  calculateRotatedSize Math_cos Math_sin height width rotation
  = (snd (calculateRotatedSize Math_cos Math_sin width height rotation),
     fst (calculateRotatedSize Math_cos Math_sin width height rotation)).
Proof.
  intros. unfold calculateRotatedSize. cbv zeta. cbn [fst snd].
  f_equal; f_equal; apply fl_comp; apply Qplus_comm.
Qed.

(** X5. With a [Math.cos] that is even and a [Math.sin] that is odd (as
    IEEE 754 libraries compute them), [calculateRotatedSize] gives the
    same size for the angles [rotation] and [-rotation]: the rounding of
    [rotation * Math.PI / 180] is symmetric. *)
Theorem calculateRotatedSize_opp_angle : forall Math_cos Math_sin width height rotation,
  (forall x, Math_cos (- x) == Math_cos x) ->
  (forall x, Math_sin (- x) == - Math_sin x) ->
  calculateRotatedSize Math_cos Math_sin width height (- rotation)
  = calculateRotatedSize Math_cos Math_sin width height rotation.
Proof.
  intros Math_cos Math_sin width height rotation Hc Hs. unfold calculateRotatedSize.
  assert (Hr : fl (fl (- rotation * Math_PI) / 180) = - fl (fl (rotation * Math_PI) / 180)).
  { rewrite (fl_comp (- rotation * Math_PI) (- (rotation * Math_PI))) by ring.
    rewrite fl_opp.
    rewrite (fl_comp (- fl (rotation * Math_PI) / 180) (- (fl (rotation * Math_PI) / 180)))
      by (unfold Qdiv; ring).
    apply fl_opp. }
  rewrite Hr. set (r := fl (fl (rotation * Math_PI) / 180)).
  assert (C : Qabs (Math_cos (- r)) == Qabs (Math_cos r)) by now rewrite Hc.
  assert (S : Qabs (Math_sin (- r)) == Qabs (Math_sin r)) by (rewrite Hs; apply Qabs_opp).
  rewrite (fl_comp (width * Qabs (Math_cos (- r))) (width * Qabs (Math_cos r))) by now rewrite C.
  rewrite (fl_comp (height * Qabs (Math_cos (- r))) (height * Qabs (Math_cos r))) by now rewrite C.
  rewrite (fl_comp (width * Qabs (Math_sin (- r))) (width * Qabs (Math_sin r))) by now rewrite S.
  rewrite (fl_comp (height * Qabs (Math_sin (- r))) (height * Qabs (Math_sin r))) by now rewrite S.
  reflexivity.
Qed.

Lemma Libm_cos_even : forall x, Libm.cos (- x) == Libm.cos x.
Proof.
  intros [n d]. unfold Libm.cos. cbn [Qnum Qden Qopp].
  now rewrite Z.mul_opp_opp.
Qed.

Lemma fl_frac_opp : forall z d, Libm.fl_frac (- z) d == - Libm.fl_frac z d.
Proof.
  intros [| p | p] d; unfold Libm.fl_frac; cbn [Z.opp].
  - reflexivity.
  - reflexivity.
  - now rewrite Qopp_Qopp_eq.
Qed.

Lemma Libm_sin_odd : forall x, Libm.sin (- x) == - Libm.sin x.
Proof.
  intros [n d]. unfold Libm.sin. cbn [Qnum Qden Qopp].
  rewrite Z.mul_opp_opp.
  destruct (Libm.horner (n * n) (Z.pos (d * d)) 2 0 24) as [h0 d0].
  rewrite Z.mul_opp_l. apply fl_frac_opp.
Qed.

End Rotated_size_symmetry.

Section Image_filter.

Local Open Scope Q_scope.

Lemma Qlt_bool_iff : forall a b, Qlt_bool a b = true <-> a < b.
Proof.
  intros a b. unfold Qlt_bool. destruct (Qle_bool b a) eqn:E; cbn [negb]; split; intros H.
  - discriminate.
  - apply Qle_bool_iff in E. exfalso. exact (Qlt_not_le _ _ H E).
  - apply Qnot_le_lt. intro C. apply Qle_bool_iff in C. congruence.
  - reflexivity.
Qed.

Lemma below_min_spec : forall v size,
  below_min v size = false
  <-> (forall m, v = Some m -> 0 < m -> m < inject_Z size).
Proof.
  intros [m |] size; cbn [below_min]; split.
  - intros H m' E Hm. injection E as <-.
    assert (E1 : Qlt_bool 0 m = true) by (apply Qlt_bool_iff; exact Hm). rewrite E1 in H.
    destruct (Qle_bool (inject_Z size) m) eqn:E2; [discriminate |].
    apply Qnot_le_lt. intro C. apply Qle_bool_iff in C. congruence.
  - intros H. destruct (Qlt_bool 0 m) eqn:E1; [| reflexivity]. cbn [andb].
    apply Qlt_bool_iff in E1. specialize (H m eq_refl E1).
    destruct (Qle_bool (inject_Z size) m) eqn:E2; [| reflexivity].
    apply Qle_bool_iff in E2. exfalso. apply (Qlt_not_le _ _ H E2).
  - intros _ m' E. discriminate.
  - reflexivity.
Qed.

(** X6. An image is in [filteredImages] exactly when it is in the list
    and, for each threshold that is set and positive, its side is
    strictly greater than the threshold: an image exactly as wide as
    [minWidth] is filtered out. The images keep their order. *)
Theorem filteredImages_spec : forall fs images image,
  In image (filteredImages fs images)
  <-> In image images
      /\ (forall m, minWidth fs = Some m -> 0 < m -> m < inject_Z (img_width image))
      /\ (forall m, minHeight fs = Some m -> 0 < m -> m < inject_Z (img_height image)).
Proof.
  intros fs images image. unfold filteredImages. rewrite filter_In.
  unfold keep_image.
  rewrite <- (below_min_spec (minWidth fs)), <- (below_min_spec (minHeight fs)).
  destruct (below_min (minWidth fs) (img_width image));
    destruct (below_min (minHeight fs) (img_height image)); intuition congruence.
Qed.

Lemma filter_active_false : forall v size, filter_active v = false -> below_min v size = false.
Proof. intros [m |] size H; cbn in *; [rewrite H |]; reflexivity. Qed.

(** X7. When no filter is active ([activeFilterCount] is 0, as after
    [resetFilters], or with thresholds that are zero or negative),
    [filteredImages] is the whole list of images. *)
Theorem filteredImages_inactive : forall fs images,
  activeFilterCount fs = 0%nat -> filteredImages fs images = images.
Proof.
  intros fs images H. unfold activeFilterCount in H.
  destruct (filter_active (minWidth fs)) eqn:Ew; [discriminate |].
  destruct (filter_active (minHeight fs)) eqn:Eh; [discriminate |].
  unfold filteredImages. induction images as [| i rest IH]; [reflexivity |].
  cbn [filter]. unfold keep_image at 1.
  rewrite (filter_active_false _ _ Ew), (filter_active_false _ _ Eh), IH. reflexivity.
Qed.

Lemma filter_impl : forall (A : Type) (p q : A -> bool) (l : list A),
  (forall x, p x = true -> q x = true) -> filter p (filter q l) = filter p l.
Proof.
  intros A p q l H. induction l as [| x l IH]; [reflexivity |]. cbn [filter].
  destruct (q x) eqn:Eq; cbn [filter].
  - rewrite IH. reflexivity.
  - destruct (p x) eqn:Ep; [rewrite (H x Ep) in Eq; discriminate | exact IH].
Qed.

(** X8. Raising the thresholds only removes images: with settings
    [fs'] at least as strict as [fs], [filteredImages fs'] is the
    filter of [fs'] applied to [filteredImages fs], so every image kept
    by [fs'] is kept by [fs]. *)
Theorem filteredImages_stricter : forall fs fs' images,
  stricter fs' fs ->
  filteredImages fs' images = filter (keep_image fs') (filteredImages fs images)
  /\ (forall image, In image (filteredImages fs' images) -> In image (filteredImages fs images)).
Proof.
  intros fs fs' images [Hw Hh].
  assert (K : forall image, keep_image fs' image = true -> keep_image fs image = true).
  { intros image Hk.
    assert (Hin : In image (filteredImages fs' [image])) by
      (unfold filteredImages; cbn [filter]; rewrite Hk; left; reflexivity).
    apply filteredImages_spec in Hin as [_ [W H]].
    assert (Hin : In image (filteredImages fs [image])).
    { apply filteredImages_spec. split; [left; reflexivity | split].
      - intros m E Hm. destruct (Hw m E Hm) as [m' [E' Hle]].
        apply (Qle_lt_trans _ m'); [exact Hle |]. apply (W m' E'). apply (Qlt_le_trans _ m); assumption.
      - intros m E Hm. destruct (Hh m E Hm) as [m' [E' Hle]].
        apply (Qle_lt_trans _ m'); [exact Hle |]. apply (H m' E'). apply (Qlt_le_trans _ m); assumption. }
    unfold filteredImages in Hin. cbn [filter] in Hin.
    destruct (keep_image fs image); [reflexivity | destruct Hin]. }
  split.
  - unfold filteredImages. symmetry. apply filter_impl. exact K.
  - intros image Hin. unfold filteredImages in *. apply filter_In in Hin as [Hi Hk].
    apply filter_In. auto.
Qed.

End Image_filter.

Section Navigation.

Lemma findIndex_absent : forall l id, no_id id l -> findIndex l id = (-1)%Z.
Proof.
  intros l id H. induction H as [| i l Hi H IH]; [reflexivity |]. cbn [findIndex].
  destruct (Nat.eqb_spec (img_id i) id); [contradiction |]. rewrite IH. reflexivity.
Qed.

Lemma findIndex_first : forall l1 a l2 id,
  no_id id l1 -> img_id a = id -> findIndex (l1 ++ a :: l2) id = Z.of_nat (List.length l1).
Proof.
  intros l1 a l2 id H Ha. induction H as [| i l Hi H IH]; cbn [findIndex app].
  - rewrite Ha, Nat.eqb_refl. reflexivity.
  - destruct (Nat.eqb_spec (img_id i) id); [contradiction |]. rewrite IH.
    destruct (Z.ltb_spec (Z.of_nat (List.length l)) 0); [lia |].
    cbn [List.length]. lia.
Qed.

Lemma findIndex_cases : forall l id,
  no_id id l
  \/ exists l1 a l2, l = l1 ++ a :: l2 /\ no_id id l1 /\ img_id a = id.
Proof.
  intros l id. induction l as [| i l [H | [l1 [a [l2 [E [H Ha]]]]]]].
  - left. constructor.
  - destruct (Nat.eq_dec (img_id i) id).
    + right. exists [], i, l. repeat split; [constructor | assumption].
    + left. constructor; assumption.
  - destruct (Nat.eq_dec (img_id i) id).
    + right. exists [], i, l. repeat split; [constructor | assumption].
    + right. exists (i :: l1), a, l2. subst l. repeat split; [constructor |]; assumption.
Qed.

Lemma id_at_index : forall l1 a l2, id_at (l1 ++ a :: l2) (Z.of_nat (List.length l1)) = Some (img_id a).
Proof.
  intros. unfold id_at. rewrite Nat2Z.id, nth_error_app2, Nat.sub_diag by lia. reflexivity.
Qed.

Lemma id_at_some : forall l k, (0 <= k < Z.of_nat (List.length l))%Z -> id_at l k <> None.
Proof.
  intros l k Hk. unfold id_at. destruct (nth_error l (Z.to_nat k)) eqn:E; [discriminate |].
  apply nth_error_None in E. lia.
Qed.

(** X9. [handleNext] selects the image right after the first one with the
    selected id, and [handlePrevious] the image right before it. *)
Theorem handleNext_handlePrevious_adjacent : forall l1 a b l2,
  (no_id (img_id a) l1 -> handleNext (Some (img_id a)) (l1 ++ a :: b :: l2) = Some (img_id b))
  /\ (no_id (img_id b) (l1 ++ [a]) ->
      handlePrevious (Some (img_id b)) (l1 ++ a :: b :: l2) = Some (img_id a)).
Proof.
  intros l1 a b l2. split.
  - intros H. unfold handleNext. rewrite (findIndex_first l1 a (b :: l2)) by auto.
    rewrite length_app. cbn [List.length].
    destruct (Z.ltb_spec (Z.of_nat (List.length l1))
                (Z.of_nat (List.length l1 + S (S (List.length l2))) - 1)); [| lia].
    replace (Z.of_nat (List.length l1) + 1)%Z with (Z.of_nat (List.length (l1 ++ [a]))).
    + replace (l1 ++ a :: b :: l2) with ((l1 ++ [a]) ++ b :: l2)
        by (rewrite <- app_assoc; reflexivity).
      apply id_at_index.
    + rewrite length_app. cbn [List.length]. lia.
  - intros H. unfold handlePrevious.
    replace (l1 ++ a :: b :: l2) with ((l1 ++ [a]) ++ b :: l2)
      by (rewrite <- app_assoc; reflexivity).
    rewrite findIndex_first by auto. rewrite length_app. cbn [List.length].
    destruct (Z.ltb_spec 0 (Z.of_nat (List.length l1 + 1))); [| lia].
    replace (Z.of_nat (List.length l1 + 1) - 1)%Z with (Z.of_nat (List.length l1)) by lia.
    rewrite <- app_assoc. apply id_at_index.
Qed.

(** X10. With an image selected, the Previous and Next buttons of
    [ImageNavigationPanel] are disabled exactly when [handlePrevious] and
    [handleNext] would select nothing. With no image selected and a
    nonempty list, the Next button is enabled but [handleNext] does
    nothing. *)
Theorem navigation_buttons_match_handlers : forall filtered,
  (forall sid,
     (previous_disabled (currentIndex (Some sid) filtered) = true
      <-> handlePrevious (Some sid) filtered = None)
     /\ (next_disabled (currentIndex (Some sid) filtered) (Z.of_nat (List.length filtered)) = true
         <-> handleNext (Some sid) filtered = None))
  /\ (filtered <> [] ->
      next_disabled (currentIndex None filtered) (Z.of_nat (List.length filtered)) = false
      /\ handleNext None filtered = None).
Proof.
  intros filtered. split.
  - intros sid. unfold previous_disabled, next_disabled, handlePrevious, handleNext, currentIndex.
    cbv zeta.
    assert (R : findIndex filtered sid = (-1)%Z
                \/ (0 <= findIndex filtered sid < Z.of_nat (List.length filtered))%Z).
    { destruct (findIndex_cases filtered sid) as [H | [l1 [a [l2 [E [H Ha]]]]]].
      - left. apply findIndex_absent. exact H.
      - right. subst filtered. rewrite findIndex_first by auto.
        rewrite length_app. cbn [List.length]. lia. }
    set (k := findIndex filtered sid) in *. split.
    + destruct (Z.leb_spec k 0); destruct (Z.ltb_spec 0 k); try lia.
      * split; reflexivity.
      * split; [discriminate |]. intros E. exfalso. revert E. apply id_at_some. lia.
    + destruct (Z.leb_spec (Z.of_nat (List.length filtered) - 1) k);
        destruct (Z.ltb_spec k (Z.of_nat (List.length filtered) - 1)); try lia.
      * split; reflexivity.
      * split; [discriminate |]. intros E. exfalso. revert E. apply id_at_some. lia.
  - intros H. split; [| reflexivity]. unfold next_disabled, currentIndex.
    destruct filtered as [| i l]; [contradiction |]. cbn [List.length].
    apply Z.leb_gt. lia.
Qed.

(** X11. When the selected id is not in [filteredImages] (for instance
    while a filter hides the selected image), [handleNext] jumps to the
    first image of the list and [handlePrevious] does nothing. *)
Theorem handleNext_unlisted_selection : forall sid first rest,
  no_id sid (first :: rest) ->
  handleNext (Some sid) (first :: rest) = Some (img_id first)
  /\ handlePrevious (Some sid) (first :: rest) = None.
Proof.
  intros sid first rest H. unfold handleNext, handlePrevious. cbv zeta.
  rewrite findIndex_absent by exact H. cbn [List.length].
  destruct (Z.ltb_spec (-1) (Z.of_nat (S (List.length rest)) - 1)); [| lia].
  split; reflexivity.
Qed.

(** X12. After the effect of [CropifyApp] on [filteredImages] has run, a
    nonempty list always contains the selected image: a selected image
    that is in the list stays selected, otherwise the first image is
    selected. Running the effect again then selects nothing more, and an
    empty list leaves the selection as it was. *)
Theorem selection_fix_settles : forall sel filtered,
  (filtered <> [] ->
     exists img, In img filtered /\ after_selection_fix sel filtered = Some (img_id img))
  /\ (forall img, In img filtered -> sel = Some (img_id img) ->
        after_selection_fix sel filtered = sel)
  /\ selection_fix (after_selection_fix sel filtered) filtered = None
  /\ (filtered = [] -> after_selection_fix sel filtered = sel).
Proof.
  intros sel filtered.
  assert (Found : forall sid, find (fun img => Nat.eqb (img_id img) sid) filtered = None ->
                    forall img, In img filtered -> img_id img <> sid).
  { intros sid E img Hin Hid. apply (find_none _ _ E) in Hin. rewrite Hid, Nat.eqb_refl in Hin.
    discriminate. }
  assert (Self : forall img, In img filtered ->
                   exists x, find (fun i => Nat.eqb (img_id i) (img_id img)) filtered = Some x).
  { intros img Hin. destruct (find (fun i => Nat.eqb (img_id i) (img_id img)) filtered) eqn:E;
      [eauto |]. exfalso. exact (Found _ E img Hin eq_refl). }
  destruct filtered as [| first rest].
  - repeat split; try reflexivity; intros; try contradiction.
  - unfold after_selection_fix, selection_fix.
    assert (Hf : In first (first :: rest)) by (left; reflexivity).
    destruct (Self first Hf) as [x Ex]. repeat split.
    + intros _. destruct sel as [sid |].
      * destruct (find (fun img => Nat.eqb (img_id img) sid) (first :: rest)) as [y |] eqn:E.
        -- exists y. split; [apply (find_some _ _ E) |].
           apply find_some in E as [_ E]. apply Nat.eqb_eq in E. rewrite E. reflexivity.
        -- exists first. auto.
      * exists first. auto.
    + intros img Hin ->. destruct (Self img Hin) as [y Ey]. rewrite Ey. reflexivity.
    + destruct sel as [sid |].
      * destruct (find (fun img => Nat.eqb (img_id img) sid) (first :: rest)) eqn:E.
        -- rewrite E. reflexivity.
        -- rewrite Ex. reflexivity.
      * rewrite Ex. reflexivity.
    + discriminate.
Qed.

End Navigation.

Section Resize_scaling.

Lemma selection_effect_lastSettings : forall st sel,
  lastSettings (selection_effect st sel) = lastSettings st.
Proof.
  intros st sel. unfold selection_effect, resetResizeSettings.
  destruct (negb _); [| reflexivity].
  destruct sel as [img |]; [destruct (img_resizeTarget img) |]; reflexivity.
Qed.

Lemma selection_effects_lastSettings : forall sels st,
  lastSettings (fold_left selection_effect sels st) = lastSettings st.
Proof.
  induction sels as [| x sels IH]; intros st; [reflexivity |]. cbn [fold_left].
  rewrite IH. apply selection_effect_lastSettings.
Qed.

Lemma option_nat_eqb_refl : forall a, option_nat_eqb a a = true.
Proof. intros [x |]; cbn; [apply Nat.eqb_refl | reflexivity]. Qed.

Lemma option_nat_eqb_eq : forall a b, option_nat_eqb a b = true -> a = b.
Proof.
  intros [x |] [y |]; cbn; try discriminate; [| reflexivity].
  intros H. apply Nat.eqb_eq in H. subst. reflexivity.
Qed.

(** X13. [useResizeScaling] remembers the last settings the user made:
    after [setResizeSettings s] and any number of re-renders, selecting
    an image with another id shows that image's saved [resizeTarget], or
    [s] when it has none; deselecting shows the defaults (not enlarged,
    1024 x 1024), and in both cases [s] stays remembered. *)
Theorem resizeSettings_on_selection : forall st s sels sel,
  let st' := fold_left selection_effect sels (setResizeSettings st s) in
  option_nat_eqb (option_map img_id sel) (lastImageId st') = false ->
  resizeSettingsState (selection_effect st' sel)
    = match sel with
      | Some img => match img_resizeTarget img with Some r => r | None => s end
      | None => default_resize_settings
      end
  /\ lastSettings (selection_effect st' sel) = s
  /\ lastImageId (selection_effect st' sel) = option_map img_id sel.
Proof.
  intros st s sels sel st' H.
  assert (L : lastSettings st' = s) by (subst st'; apply selection_effects_lastSettings).
  unfold selection_effect. rewrite H. cbn [negb]. unfold resetResizeSettings.
  destruct sel as [img |]; [destruct (img_resizeTarget img) |]; cbn; auto.
Qed.

(** X14. The effect runs once per change of the selected id: rendering
    again with an image of the same id, for example the same image after
    [updateImage] has saved new settings into it, leaves the state of
    [useResizeScaling] unchanged. *)
Theorem selection_effect_same_id : forall st sel sel',
  option_map img_id sel' = option_map img_id sel ->
  selection_effect (selection_effect st sel) sel' = selection_effect st sel.
Proof.
  intros st sel sel' E.
  assert (I : lastImageId (selection_effect st sel) = option_map img_id sel).
  { unfold selection_effect. destruct (negb _) eqn:N.
    - unfold resetResizeSettings. destruct sel as [img |];
        [destruct (img_resizeTarget img) |]; reflexivity.
    - apply negb_false_iff, option_nat_eqb_eq in N. symmetry. exact N. }
  unfold selection_effect at 1. rewrite I, E, option_nat_eqb_refl. reflexivity.
Qed.

End Resize_scaling.

(** ** Witnesses: the theorems applied at concrete inputs *)

Lemma processImage_failure_isolated_witness :
  let t := pending_crop_task 7 (FiveTasks.image 3) FiveTasks.cropParams
             FiveTasks.outputSettings in
  let runs := [mkRun FiveTasks.images (AwaitDecode t (FiveTasks.image 3) 0 [])] in
  nth_error runs 0 = Some (mkRun FiveTasks.images (AwaitDecode t (FiveTasks.image 3) 0 []))
  /\ await_failure FiveTasks.env (AwaitDecode t (FiveTasks.image 3) 0 [])
     = Some (t, FiveTasks.image 3, [], "image load failed"%string)
  /\ snd (step FiveTasks.env (FiveTasks.idle, runs) (EvResolve 0))
     = replace_nth runs 0 (mkRun FiveTasks.images (AwaitYield [])).
Proof.
  intros t runs. split; [reflexivity | split; [reflexivity |]].
  destruct processImage_failure_isolated as [H _].
  refine (proj2 (proj2 (proj2 (proj2 (proj2 (proj2
    (H FiveTasks.env FiveTasks.idle runs 0%nat
      (mkRun FiveTasks.images (AwaitDecode t (FiveTasks.image 3) 0 []))
      t (FiveTasks.image 3) [] "image load failed"%string _ _))))))).
  - reflexivity.
  - reflexivity.
Defined.

Lemma resize_output_dims_witness :
  (0 < 3 # 2)%Q /\ (0 <= s_width (mkSurface 300 200 (fun _ _ => None)))
  /\ (3 # 2 < 2 # 1)%Q
  /\ resizeImageProportionally (mkSurface 300 200 (fun _ _ => None)) (3 # 2)
     = inr (BlobResampled (mkSurface 300 200 (fun _ _ => None)) 200 133)
  /\ (150 <= 200 /\ 100 <= 133).
Proof.
  split; [reflexivity | split; [discriminate | split; [reflexivity | split]]].
  - destruct resize_output_dims as [H _]. apply (H (mkSurface 300 200 (fun _ _ => None))).
    reflexivity.
  - destruct resize_output_dims as [_ [H _]].
    apply (H (mkSurface 300 200 (fun _ _ => None)) (3 # 2)%Q (2 # 1) 200 133 150 100).
    + discriminate.
    + discriminate.
    + reflexivity.
    + reflexivity.
    + reflexivity.
    + reflexivity.
Defined.

Lemma resize_rejects_nonpositive_witness :
  resizeImageProportionally (mkSurface 30 30 (fun _ _ => None)) (-1)
    = inl InvalidScaleFactor
  /\ engine_run FiveTasks.env
       (mkTask 1 1 PTResize PENDING 0 None (Some (mkPRS (-2) ScaleDown))
          FiveTasks.outputSettings None None)
       (FiveTasks.image 1) FiveTasks.surf = RErr "InvalidScaleFactor"%string
  /\ (0 < 3 # 2)%Q.
Proof.
  destruct resize_rejects_nonpositive as [H1 [H2 H3]].
  split; [| split].
  - apply H1. discriminate.
  - apply H3 with (rs := mkPRS (-2) ScaleDown); [reflexivity | reflexivity | discriminate].
  - apply (H2 (mkSurface 30 30 (fun _ _ => None)) (3 # 2)
             (BlobResampled (mkSurface 30 30 (fun _ _ => None)) 20 20)).
    reflexivity.
Defined.


Lemma cropImage_rounded_clip_witness :
  (0 < borderRadius_of CanvasDemo.cp_round)%Q
  /\ (let c1 := crop_setup CanvasDemo.trig CanvasDemo.trig CanvasDemo.inside_all
                  CanvasDemo.blank CanvasDemo.cp_round in
      let c2 := crop_clip CanvasDemo.trig CanvasDemo.trig c1 CanvasDemo.cp_round in
      let w := inject_Z (cp_width CanvasDemo.cp_round) in
      let h := inject_Z (cp_height CanvasDemo.cp_round) in
      let r := Qmin (Qmin (inject_Z (Z.min (cp_width CanvasDemo.cp_round)
                                           (cp_height CanvasDemo.cp_round))
                           * borderRadius_of CanvasDemo.cp_round / 2) (w / 2)) (h / 2) in
      c_ctm c2 = c_ctm c1
      /\ (exists p, c_clip c2 = [p] /\ path_eqv p (rounded_rect w h r))
      /\ (forall i j, in_clip CanvasDemo.inside_all c2 (pixel_centre i j) = false ->
            c_px (fst (cropImage CanvasDemo.trig CanvasDemo.trig CanvasDemo.inside_all
                         CanvasDemo.chromium_limit CanvasDemo.blank CanvasDemo.src
                         CanvasDemo.cp_round None)) i j
            = None)).
Proof.
  assert (H : (0 < borderRadius_of CanvasDemo.cp_round)%Q) by reflexivity.
  split; [exact H |].
  exact (cropImage_rounded_clip CanvasDemo.trig CanvasDemo.trig CanvasDemo.inside_all
           CanvasDemo.chromium_limit CanvasDemo.blank CanvasDemo.src CanvasDemo.cp_round None H).
Defined.

Lemma cropImage_plain_output_witness :
  let cp := CanvasDemo.cp_plain in
  let img := CanvasDemo.src in
  Qeq_bool (rotation_of cp) 0 = true /\ flipH_of cp = false /\ flipV_of cp = false
  /\ (borderRadius_of cp == 0)%Q
  /\ (0 < cp_width cp <= 2147483647) /\ (0 < cp_height cp <= 2147483647)
  /\ CanvasDemo.chromium_limit (cp_width cp) (cp_height cp) = true
  /\ exists s,
       snd (cropImage CanvasDemo.trig CanvasDemo.trig CanvasDemo.inside_all
              CanvasDemo.chromium_limit CanvasDemo.blank img cp None) = ROk (BlobSurface s)
       /\ s_width s = 100 /\ s_height s = 200
       /\ (forall i j, 0 <= i < 100 -> 0 <= j < 200 ->
             0 <= 0 + i < s_width img -> 0 <= 0 + j < s_height img ->
             s_px s i j = s_px img (0 + i) (0 + j)).
Proof.
  intros cp img.
  assert (H1 : Qeq_bool (rotation_of cp) 0 = true) by reflexivity.
  assert (H2 : flipH_of cp = false) by reflexivity.
  assert (H3 : flipV_of cp = false) by reflexivity.
  assert (H4 : (borderRadius_of cp == 0)%Q) by reflexivity.
  assert (H5 : forall rt, (None : option (option ResizeTarget)) = Some (Some rt) ->
                          rt_enabled rt = false) by (intros rt E; discriminate E).
  assert (H6 : 0 < cp_width cp <= 2147483647) by (simpl; lia).
  assert (H7 : 0 < cp_height cp <= 2147483647) by (simpl; lia).
  assert (H8 : CanvasDemo.chromium_limit (cp_width cp) (cp_height cp) = true)
    by reflexivity.
  do 7 (split; [assumption |]).
  exact (proj1 (cropImage_plain_output CanvasDemo.trig CanvasDemo.trig CanvasDemo.inside_all
           CanvasDemo.chromium_limit CanvasDemo.blank img cp None H1 H2 H3 H4 H5 H6 H7) H8).
Defined.

Lemma calculateRotatedSize_rounding_witness :
  (Libm.cos 0 == 1)%Q /\ (Libm.sin 0 == 0)%Q
  /\ calculateRotatedSize Libm.cos Libm.sin (inject_Z 100) (inject_Z 200) 0 = (100, 200).
Proof.
  assert (Hc : (Libm.cos 0 == 1)%Q) by (vm_compute; reflexivity).
  assert (Hs : (Libm.sin 0 == 0)%Q) by (vm_compute; reflexivity).
  split; [exact Hc | split; [exact Hs |]].
  exact (calculateRotatedSize_rounding Libm.cos Libm.sin 100 200 Hc Hs
           ltac:(lia) ltac:(lia)).
Defined.

Lemma run_keeps_task_keys_witness :
  let st := run_events FiveTasks.env (FiveTasks.idle, [])
              [EvStartBatch FiveTasks.images FiveTasks.cropParams FiveTasks.outputSettings] in
  let evs := [EvResolve 0; EvPause; EvResolve 0] in
  Forall (fun e => match e with EvResolve _ | EvPause => True | _ => False end) evs
  /\ map task_key (tasks (fst (run_events FiveTasks.env st evs)))
     = map task_key (tasks (fst st)).
Proof.
  intros st evs.
  assert (H : Forall (fun e => match e with EvResolve _ | EvPause => True | _ => False end) evs)
    by (repeat constructor).
  split; [exact H |].
  exact (run_keeps_task_keys FiveTasks.env st evs H).
Defined.

Lemma startBatch_all_completed_witness :
  let h := Rebatch.hook_with [Rebatch.completed_resize; Rebatch.completed_crop] in
  isProcessing h = false
  /\ (forall image, In image [Rebatch.image1] ->
        exists e, find_crop_task (tasks h) image = Some e /\ t_status e = COMPLETED)
  /\ Forall (fun e => t_status e = COMPLETED)
       (tasks (fst (startBatch (h, []) [Rebatch.image1] Rebatch.cp Rebatch.os)))
  /\ snd (startBatch (h, []) [Rebatch.image1] Rebatch.cp Rebatch.os)
     = [mkRun [Rebatch.image1] Done].
Proof.
  intros h.
  assert (H1 : isProcessing h = false) by reflexivity.
  assert (H2 : forall image, In image [Rebatch.image1] ->
                 exists e, find_crop_task (tasks h) image = Some e /\ t_status e = COMPLETED).
  { intros image [<- | []]. exists Rebatch.completed_crop. split; reflexivity. }
  split; [exact H1 | split; [exact H2 |]].
  destruct (startBatch_all_completed h [] [Rebatch.image1] Rebatch.cp Rebatch.os H1 H2)
    as [_ [F [_ [_ [_ [_ R]]]]]].
  split; [exact F | exact R].
Defined.

Lemma processImage_crop_ignores_resizeTarget_witness :
  let env := browser_env CanvasDemo.trig CanvasDemo.trig CanvasDemo.inside_all
               CanvasDemo.chromium_limit (fun _ => ROk CanvasDemo.src) (fun b _ => ROk b) in
  let img := mkImage 1 "photo"%string 120 250 (Some CanvasDemo.cp_plain)
               (Some (mkResizeTarget true 50 50)) None in
  let t := pending_crop_task 4 img CanvasDemo.cp_plain FiveTasks.outputSettings in
  t_processType t = PTCrop /\ t_cropParams t = Some CanvasDemo.cp_plain
  /\ CanvasDemo.chromium_limit 100 200 = true
  /\ exists s, engine_run env t img CanvasDemo.src = ROk (BlobSurface s)
               /\ s_width s = 100 /\ s_height s = 200.
Proof.
  intros env img t.
  assert (Ht : t_processType t = PTCrop) by reflexivity.
  assert (Hc : t_cropParams t = Some CanvasDemo.cp_plain) by reflexivity.
  assert (Hl : CanvasDemo.chromium_limit 100 200 = true) by reflexivity.
  split; [exact Ht | split; [exact Hc | split; [exact Hl |]]].
  exact (proj1 (processImage_crop_ignores_resizeTarget CanvasDemo.trig CanvasDemo.trig
              CanvasDemo.inside_all CanvasDemo.chromium_limit (fun _ => ROk CanvasDemo.src)
              (fun b _ => ROk b) t img CanvasDemo.src CanvasDemo.cp_plain Ht Hc
              ltac:(cbn; lia) ltac:(cbn; lia)) Hl).
Defined.

Lemma calculateRotatedSize_opp_angle_witness :
  (forall x, Libm.cos (- x) == Libm.cos x)%Q
  /\ (forall x, Libm.sin (- x) == - Libm.sin x)%Q
  /\ calculateRotatedSize Libm.cos Libm.sin (inject_Z 100) (inject_Z 200) (-30)
     = calculateRotatedSize Libm.cos Libm.sin (inject_Z 100) (inject_Z 200) 30.
Proof.
  split; [exact Libm_cos_even | split; [exact Libm_sin_odd |]].
  exact (calculateRotatedSize_opp_angle Libm.cos Libm.sin (inject_Z 100) (inject_Z 200) 30
           Libm_cos_even Libm_sin_odd).
Defined.

Lemma filteredImages_inactive_witness :
  let fs := mkFilterSettings (Some 0%Q) (Some (-5)%Q) in
  activeFilterCount fs = 0%nat /\ filteredImages fs FiveTasks.images = FiveTasks.images.
Proof.
  intros fs. assert (H : activeFilterCount fs = 0%nat) by reflexivity.
  split; [exact H | exact (filteredImages_inactive fs FiveTasks.images H)].
Defined.

Lemma filteredImages_stricter_witness :
  let images := [mkImage 1 "a"%string 4 9 None None None; mkImage 2 "b"%string 6 9 None None None;
                 mkImage 3 "c"%string 9 9 None None None; mkImage 4 "d"%string 12 2 None None None] in
  let fs := mkFilterSettings (Some 5%Q) None in
  let fs' := mkFilterSettings (Some 8%Q) (Some 3%Q) in
  stricter fs' fs
  /\ filteredImages fs' images = filter (keep_image fs') (filteredImages fs images)
  /\ filteredImages fs' images = [mkImage 3 "c"%string 9 9 None None None].
Proof.
  intros images fs fs'.
  assert (H : stricter fs' fs).
  { split; intros m E Hm; cbn in E; [| discriminate].
    injection E as <-. exists 8%Q. split; [reflexivity | unfold Qle; cbn; lia]. }
  split; [exact H | split].
  - exact (proj1 (filteredImages_stricter fs fs' images H)).
  - reflexivity.
Defined.

Lemma handleNext_handlePrevious_adjacent_witness :
  let im := FiveTasks.image in
  no_id 2 [im 1%nat] /\ handleNext (Some 2%nat) (map im [1; 2; 3; 4]%nat) = Some 3%nat
  /\ no_id 3 [im 1%nat; im 2%nat]
  /\ handlePrevious (Some 3%nat) (map im [1; 2; 3; 4]%nat) = Some 2%nat.
Proof.
  intros im.
  destruct (handleNext_handlePrevious_adjacent [im 1%nat] (im 2%nat) (im 3%nat) [im 4%nat])
    as [N P].
  assert (H1 : no_id 2 [im 1%nat]) by (repeat constructor; cbn; discriminate).
  assert (H2 : no_id 3 [im 1%nat; im 2%nat]) by (repeat constructor; cbn; discriminate).
  split; [exact H1 | split; [exact (N H1) | split; [exact H2 | exact (P H2)]]].
Defined.

Lemma navigation_buttons_match_handlers_witness :
  FiveTasks.images <> []
  /\ (previous_disabled (currentIndex (Some 1%nat) FiveTasks.images) = true
      <-> handlePrevious (Some 1%nat) FiveTasks.images = None)
  /\ (next_disabled (currentIndex (Some 5%nat) FiveTasks.images)
        (Z.of_nat (List.length FiveTasks.images)) = true
      <-> handleNext (Some 5%nat) FiveTasks.images = None)
  /\ next_disabled (currentIndex None FiveTasks.images)
       (Z.of_nat (List.length FiveTasks.images)) = false
  /\ handleNext None FiveTasks.images = None.
Proof.
  destruct (navigation_buttons_match_handlers FiveTasks.images) as [A B].
  assert (H : FiveTasks.images <> []) by discriminate.
  split; [exact H | split; [exact (proj1 (A 1%nat)) | split; [exact (proj2 (A 5%nat)) |]]].
  exact (B H).
Defined.

Lemma handleNext_unlisted_selection_witness :
  no_id 9 [FiveTasks.image 1; FiveTasks.image 2]
  /\ handleNext (Some 9%nat) [FiveTasks.image 1; FiveTasks.image 2] = Some 1%nat
  /\ handlePrevious (Some 9%nat) [FiveTasks.image 1; FiveTasks.image 2] = None.
Proof.
  assert (H : no_id 9 [FiveTasks.image 1; FiveTasks.image 2])
    by (repeat constructor; cbn; discriminate).
  split; [exact H |].
  exact (handleNext_unlisted_selection 9 (FiveTasks.image 1) [FiveTasks.image 2] H).
Defined.

Lemma selection_fix_settles_witness :
  FiveTasks.images <> []
  /\ (exists img, In img FiveTasks.images
        /\ after_selection_fix (Some 9%nat) FiveTasks.images = Some (img_id img))
  /\ after_selection_fix (Some 3%nat) FiveTasks.images = Some 3%nat
  /\ selection_fix (after_selection_fix (Some 9%nat) FiveTasks.images) FiveTasks.images = None.
Proof.
  destruct (selection_fix_settles (Some 9%nat) FiveTasks.images) as [A [_ [C _]]].
  destruct (selection_fix_settles (Some 3%nat) FiveTasks.images) as [_ [B _]].
  assert (H : FiveTasks.images <> []) by discriminate.
  split; [exact H | split; [exact (A H) | split; [| exact C]]].
  apply (B (FiveTasks.image 3)); [right; right; left; reflexivity | reflexivity].
Defined.

Lemma resizeSettings_on_selection_witness :
  let s := mkResizeTarget true 640 480 in
  let st' := fold_left selection_effect [Some (FiveTasks.image 1); Some (FiveTasks.image 1)]
               (setResizeSettings resize_scaling_init s) in
  option_nat_eqb (Some 2%nat) (lastImageId st') = false
  /\ resizeSettingsState (selection_effect st' (Some (FiveTasks.image 2))) = s
  /\ lastSettings (selection_effect st' (Some (FiveTasks.image 2))) = s
  /\ lastImageId (selection_effect st' (Some (FiveTasks.image 2))) = Some 2%nat.
Proof.
  intros s st'.
  assert (H : option_nat_eqb (Some 2%nat) (lastImageId st') = false) by reflexivity.
  split; [exact H |].
  exact (resizeSettings_on_selection resize_scaling_init s
           [Some (FiveTasks.image 1); Some (FiveTasks.image 1)] (Some (FiveTasks.image 2)) H).
Defined.

Lemma selection_effect_same_id_witness :
  let saved := mkImage 1 "img"%string 10 10 None (Some (mkResizeTarget true 5 5)) None in
  option_map img_id (Some saved) = option_map img_id (Some (FiveTasks.image 1))
  /\ selection_effect (selection_effect resize_scaling_init (Some (FiveTasks.image 1)))
       (Some saved)
     = selection_effect resize_scaling_init (Some (FiveTasks.image 1)).
Proof.
  intros saved.
  assert (H : option_map img_id (Some saved) = option_map img_id (Some (FiveTasks.image 1)))
    by reflexivity.
  split; [exact H |].
  exact (selection_effect_same_id resize_scaling_init (Some (FiveTasks.image 1)) (Some saved) H).
Defined.
